(** * Verification of the playback supervisor of yt_restream_apps

    A shallow embedding of [src/stream_manager.py]: the quality catalog,
    the playback index logic, the startup probe [_wait_for_stream] and one
    iteration of the worker loop [_stream_worker], with the external
    collaborators (playlist resolver, media locator, transcoder, the API
    threads calling [next]/[prev]/[skip]/[stop]) supplied as an
    environment for each cycle; and the pieces around it: the status
    report, the yt-dlp result handling of [_get_playlist_videos] and
    [_get_media_url], the transcoder command line of [_stream_video],
    [_clean_hls_directory], and the HTTP routes of [src/app.py]. *)

From Stdlib Require Import ZArith List String Bool Lia.
Import ListNotations.
Open Scope string_scope.
Open Scope list_scope.
Open Scope Z_scope.

(** ** Quality catalog ([QUALITY_PRESETS], lines 15-32) *)

Record preset := mk_preset {
  p_format : string;
  p_resolution : string;
  p_bitrate : string }.

Definition QUALITY_PRESETS : list (string * preset) := [
  ("1080p", mk_preset "bestvideo[height<=1080]+bestaudio/best[height<=1080]"
                      "1920x1080" "4000k");
  ("720p", mk_preset "bestvideo[height<=720]+bestaudio/best[height<=720]"
                     "1280x720" "2500k");
  ("480p", mk_preset "bestvideo[height<=480]+bestaudio/best[height<=480]"
                     "854x480" "1000k");
  ("360p", mk_preset "bestvideo[height<=360]+bestaudio/best[height<=360]"
                     "640x360" "700k")].

(** Python's [k in d] and [d[k]] (the latter raising [KeyError], here
    [None]). *)
Fixpoint preset_lookup (k : string) (d : list (string * preset)) : option preset :=
  match d with
  | [] => None
  | (k', p) :: d' => if String.eqb k k' then Some p else preset_lookup k d'
  end.

Definition preset_mem (k : string) (d : list (string * preset)) : bool :=
  match preset_lookup k d with Some _ => true | None => false end.

Record config := mk_config {
  c_url : string;
  c_format : string;
  c_resolution : string;
  c_bitrate : string }.

(** The configuration part of [StreamManager.__init__] (lines 53-60);
    [None] is the [KeyError] that [QUALITY_PRESETS[quality_key]] would
    raise. *)
Definition init_config (url quality_key : string) : option config :=
  let quality_key :=
    if negb (preset_mem quality_key QUALITY_PRESETS) then "720p"%string
    else quality_key in
  match preset_lookup quality_key QUALITY_PRESETS with
  | Some p => Some (mk_config url (p_format p) (p_resolution p) (p_bitrate p))
  | None => None
  end.

(** ** Commands and the index logic *)

(** Items of [command_queue]: ["stop"], ["next"], ["prev"] and
    [("skip", n)]. *)
Inductive qitem := QStop | QNext | QPrev | QSkip (n : Z).

(** Step 1 of the worker (lines 283-297): the effect of a drained command
    on [current_index]. *)
Definition apply_command (c : qitem) (i : Z) : Z :=
  match c with
  | QSkip n => n - 1
  | QNext => i + 1
  | QPrev => i - 1
  | QStop => i
  end.

(** Step 2b of the worker (lines 314-321): index boundaries. *)
Definition normalize_index (len i : Z) : Z :=
  if negb ((0 <=? i) && (i <? len)) then
    if len <=? i then 0
    else if i <? 0 then len - 1
    else i
  else i.

(** Python's [lst[i]], negative indices counting from the end; [None] is
    the [IndexError]. *)
Definition py_index {A} (l : list A) (i : Z) : option A :=
  let n := Z.of_nat (List.length l) in
  if (0 <=? i) && (i <? n) then nth_error l (Z.to_nat i)
  else if (- n <=? i) && (i <? 0) then nth_error l (Z.to_nat (n + i))
  else None.

(** ** The startup probe [_wait_for_stream] (lines 226-258) *)

(** What one polling iteration observes: the manifest exists and is
    non-empty, the first chunk exists and is non-empty, and
    [self.ffmpeg_proc.poll() is not None]. *)
Record probe_obs := mk_probe_obs {
  po_m3u8 : bool;
  po_ts : bool;
  po_exited : bool }.

(** The list holds the iterations entered while
    [time.time() - start_time < timeout] holds; its end is the timeout. *)
Fixpoint wait_loop (m3u8_ready ts_ready : bool) (obs : list probe_obs) : bool :=
  match obs with
  | [] => false
  | o :: rest =>
      let m3u8_ready := if negb m3u8_ready && po_m3u8 o then true else m3u8_ready in
      let ts_ready := if negb ts_ready && po_ts o then true else ts_ready in
      if m3u8_ready && ts_ready then true
      else if po_exited o then false
      else wait_loop m3u8_ready ts_ready rest
  end.

Definition wait_for_stream (obs : list probe_obs) : bool :=
  wait_loop false false obs.

(** ** The worker loop [_stream_worker] (lines 270-384) *)

(** The arguments of [_stream_video], which stand for the [Popen]
    object it returns. *)
Record proc_handle := mk_handle {
  ph_video : string;
  ph_audio : string;
  ph_resolution : string;
  ph_bitrate : string }.

(** The attributes of [StreamManager] the worker reads and writes. *)
Record state := mk_state {
  playlist : list string;
  current_index : Z;
  stream_ready : bool;
  ffmpeg_proc : option proc_handle;
  command_queue : list qitem;
  stop_event : bool }.

Definition set_playlist (st : state) (p : list string) : state :=
  mk_state p (current_index st) (stream_ready st) (ffmpeg_proc st)
           (command_queue st) (stop_event st).
Definition set_index (st : state) (i : Z) : state :=
  mk_state (playlist st) i (stream_ready st) (ffmpeg_proc st)
           (command_queue st) (stop_event st).
Definition set_ready (st : state) (b : bool) : state :=
  mk_state (playlist st) (current_index st) b (ffmpeg_proc st)
           (command_queue st) (stop_event st).
Definition set_proc (st : state) (p : option proc_handle) : state :=
  mk_state (playlist st) (current_index st) (stream_ready st) p
           (command_queue st) (stop_event st).
Definition set_queue (st : state) (q : list qitem) : state :=
  mk_state (playlist st) (current_index st) (stream_ready st) (ffmpeg_proc st)
           q (stop_event st).
Definition set_stop (st : state) (b : bool) : state :=
  mk_state (playlist st) (current_index st) (stream_ready st) (ffmpeg_proc st)
           (command_queue st) b.

(** Calls of the public API made by other threads: [next()], [prev()],
    [skip(n)] and [stop()].  Of [stop()] the worker sees the event and the
    queued ["stop"]; its own [terminate()] of the process shows up as the
    process's exit in the environment's observations. *)
Inductive api_call := ApiNext | ApiPrev | ApiSkip (n : Z) | ApiStop.

Definition apply_api (st : state) (a : api_call) : state :=
  match a with
  | ApiNext => set_queue st (command_queue st ++ [QNext])
  | ApiPrev => set_queue st (command_queue st ++ [QPrev])
  | ApiSkip n => set_queue st (command_queue st ++ [QSkip n])
  | ApiStop => set_queue (set_stop st true) (command_queue st ++ [QStop])
  end.

Definition apply_apis (st : state) (l : list api_call) : state :=
  fold_left apply_api l st.

(** Observable effects of the worker, in order: playlist fetches, the
    "Starting video" line, directory cleaning, readiness changes, process
    launches and terminations, the "Error in stream worker" line and
    sleeps (in milliseconds). *)
Inductive event :=
  | EvFetchPlaylist
  | EvStart (i : Z) (page : string)
  | EvClean
  | EvReady (b : bool)
  | EvLaunch (h : proc_handle)
  | EvTerminate
  | EvError
  | EvSleep (ms : Z).

(** The call inside the [try] at which an exception is raised, if any. *)
Inductive raise_point :=
  | RaiseResolve | RaiseLocate | RaiseLaunch | RaiseProbe | RaiseMonitor.

Definition raise_point_eqb (a b : raise_point) : bool :=
  match a, b with
  | RaiseResolve, RaiseResolve | RaiseLocate, RaiseLocate
  | RaiseLaunch, RaiseLaunch | RaiseProbe, RaiseProbe
  | RaiseMonitor, RaiseMonitor => true
  | _, _ => false
  end.

(** What the outside world does during one cycle:
    - [env_resolver]: the result of [_get_playlist_videos];
    - [env_locator page format]: the pair returned by [_get_media_url];
    - [env_probe]: the in-time iterations of [_wait_for_stream];
    - [env_monitor]: one entry per iteration of the monitoring loop in
      which [poll()] is [None], holding the API calls made before that
      iteration's checks; its end is the process's exit;
    - [env_final]: API calls made before the [finally] block's checks;
    - [env_raise]: where an exception is raised. *)
Record env := mk_env {
  env_resolver : list string;
  env_locator : string -> string -> option string * option string;
  env_probe : list probe_obs;
  env_monitor : list (list api_call);
  env_final : list api_call;
  env_raise : option raise_point }.

Definition raises (e : env) (p : raise_point) : bool :=
  match env_raise e with Some q => raise_point_eqb p q | None => false end.

(** Python truthiness of [None] or a string. *)
Definition py_truthy (o : option string) : bool :=
  match o with Some s => negb (String.eqb s "") | None => false end.

Definition is_nil {A} (l : list A) : bool :=
  match l with [] => true | _ => false end.

(** Step 4 (lines 349-359): [while self.ffmpeg_proc.poll() is None]. *)
Fixpoint monitor (st : state) (its : list (list api_call)) : state * list event :=
  match its with
  | [] => (st, [])
  | calls :: rest =>
      let st := apply_apis st calls in
      if stop_event st then (st, [EvTerminate])
      else if negb (is_nil (command_queue st)) then (st, [EvTerminate])
      else let '(st', tr) := monitor st rest in (st', EvSleep 500 :: tr)
  end.

(** How the [try] block is left. *)
Inductive flow := FNormal | FContinue | FBreak | FRaise.

Definition command_name (c : qitem) : option string :=
  match c with
  | QSkip _ => Some "skip"
  | QNext => Some "next"
  | QPrev => Some "prev"
  | QStop => None
  end.

(** Step 3 (lines 323-359): start the video at [current_index] and
    monitor it.  [tr] is the trace of the cycle so far. *)
Definition play (cfg : config) (e : env) (command : option string)
    (st : state) (tr : list event) : flow * option string * state * list event :=
  match py_index (playlist st) (current_index st) with
  | None => (FRaise, command, st, tr)
  | Some page_url =>
      let tr := tr ++ [EvStart (current_index st) page_url] in
      if raises e RaiseLocate then (FRaise, command, st, tr) else
      match env_locator e page_url (c_format cfg) with
      | (Some video_url, Some audio_url) =>
          if negb (py_truthy (Some video_url)) || negb (py_truthy (Some audio_url))
          then (FContinue, Some "next", st, tr)
          else
            let tr := tr ++ [EvClean; EvReady false] in
            let st := set_ready st false in
            if raises e RaiseLaunch then (FRaise, command, st, tr) else
            let h := mk_handle video_url audio_url (c_resolution cfg) (c_bitrate cfg) in
            let st := set_proc st (Some h) in
            let tr := tr ++ [EvLaunch h] in
            if raises e RaiseProbe then (FRaise, command, st, tr) else
            if negb (wait_for_stream (env_probe e)) then
              (FContinue, Some "next", st, tr ++ [EvTerminate])
            else
              let st := set_ready st true in
              let tr := tr ++ [EvReady true] in
              if raises e RaiseMonitor then (FRaise, command, st, tr) else
              let '(st, tr') := monitor st (env_monitor e) in
              (FNormal, command, st, tr ++ tr')
      | _ => (FContinue, Some "next", st, tr)
      end
  end.

(** Step 2 (lines 299-321): make sure there is a playlist, then bring
    the index into range. *)
Definition ensure_playlist_and_play (cfg : config) (e : env)
    (command : option string) (st : state)
    : flow * option string * state * list event :=
  let normalize st :=
    set_index st (normalize_index (Z.of_nat (List.length (playlist st)))
                                  (current_index st)) in
  if is_nil (playlist st) then
    if raises e RaiseResolve then (FRaise, command, st, [EvFetchPlaylist]) else
    let st := set_playlist st (env_resolver e) in
    if is_nil (playlist st) then
      (FContinue, command, st, [EvFetchPlaylist; EvSleep 60000])
    else
      let st := if current_index st =? -1 then set_index st 0 else st in
      play cfg e command (normalize st) [EvFetchPlaylist]
  else play cfg e command (normalize st) [].

(** The [try] block (lines 275-359), from [command = None]. *)
Definition try_block (cfg : config) (e : env) (st : state)
    : flow * option string * state * list event :=
  match command_queue st with
  | [] => ensure_playlist_and_play cfg e None st
  | QStop :: q => (FBreak, None, set_queue st q, [])
  | c :: q =>
      let st := set_queue st q in
      let st := set_index st (apply_command c (current_index st)) in
      ensure_playlist_and_play cfg e (command_name c) st
  end.

Inductive outcome := Continues | Broke.

(** One iteration of [while not self.stop_event.is_set()]: the [try]
    block, the [except] block (lines 361-364) and the [finally] block
    (lines 366-381). *)
Definition worker_cycle (cfg : config) (st : state) (e : env)
    : outcome * state * list event :=
  let '(fl, command, st, tr) := try_block cfg e st in
  let tr :=
    match fl with
    | FRaise =>
        tr ++ [EvError]
           ++ (match ffmpeg_proc st with Some _ => [EvTerminate] | None => [] end)
           ++ [EvSleep 10000]
    | _ => tr
    end in
  let st := set_proc st None in
  let st := apply_apis st (env_final e) in
  let st :=
    if negb (py_truthy command) && is_nil (command_queue st) && negb (stop_event st)
    then set_index st (current_index st + 1) else st in
  let tr := if is_nil (command_queue st) then tr ++ [EvSleep 3000] else tr in
  (match fl with FBreak => Broke | _ => Continues end, st, tr).

(** The whole loop, one environment per cycle.  The boolean tells whether
    the loop has exited; when the environments run out first the worker
    is still running.  On exit the readiness signal is set (line 383). *)
Fixpoint stream_worker (cfg : config) (st : state) (envs : list env)
    : state * list event * bool :=
  match envs with
  | [] => (st, [], false)
  | e :: es =>
      if stop_event st then (set_ready st true, [EvReady true], true) else
      let '(o, st1, tr1) := worker_cycle cfg st e in
      match o with
      | Broke => (set_ready st1 true, tr1 ++ [EvReady true], true)
      | Continues =>
          let '(st2, tr2, ex) := stream_worker cfg st1 es in
          (st2, tr1 ++ tr2, ex)
      end
  end.

(** ** Auxiliary views used by the statements *)

(** The indices of the videos started in a trace. *)
Fixpoint started_videos (tr : list event) : list Z :=
  match tr with
  | [] => []
  | EvStart i _ :: tr' => i :: started_videos tr'
  | _ :: tr' => started_videos tr'
  end.

Definition is_launch (ev : event) : bool :=
  match ev with EvLaunch _ => true | _ => false end.

(** The index changes a sequence of commands and natural advancements
    makes, each followed by the boundary handling of the next cycle. *)
Inductive index_step := StepCommand (c : qitem) | StepAdvance.

Definition step_index (s : index_step) (i : Z) : Z :=
  match s with
  | StepCommand c => apply_command c i
  | StepAdvance => i + 1
  end.

Fixpoint index_trace (len i : Z) (ss : list index_step) : list Z :=
  match ss with
  | [] => []
  | s :: ss' =>
      let j := normalize_index len (step_index s i) in
      j :: index_trace len j ss'
  end.

(** The queue item each API call adds. *)
Definition api_item (a : api_call) : qitem :=
  match a with
  | ApiNext => QNext
  | ApiPrev => QPrev
  | ApiSkip n => QSkip n
  | ApiStop => QStop
  end.

(** [stop()] sets the event before it queues ["stop"]. *)
Definition stop_inv (st : state) : Prop :=
  In QStop (command_queue st) -> stop_event st = true.

(** What the [try] block guarantees about the state and the trace it
    leaves, whatever path it takes: it never logs a worker error, the
    readiness signal ends set exactly when it was set in the block or was
    set before and not cleared, it is set only after a successful probe,
    each launch directly follows the clearing of readiness, the process
    handle changes only by a launch, and [stop()]'s flag and queued
    ["stop"] stay consistent. *)
Definition try_facts (e : env) (st st1 : state) (tr : list event) : Prop :=
  ~ In EvError tr /\
  (stream_ready st1 = true <->
   In (EvReady true) tr \/ (~ In (EvReady false) tr /\ stream_ready st = true)) /\
  (In (EvReady true) tr -> wait_for_stream (env_probe e) = true) /\
  (forall h, In (EvLaunch h) tr ->
     exists tr1 tr2, tr = tr1 ++ EvReady false :: EvLaunch h :: tr2) /\
  (existsb is_launch tr = false -> ffmpeg_proc st1 = ffmpeg_proc st) /\
  (existsb is_launch tr = true -> ffmpeg_proc st1 <> None) /\
  (stop_event st = true -> stop_event st1 = true) /\
  (stop_inv st -> stop_inv st1).

(** ** The status report [get_status] (lines 112-119) *)

Record status := mk_status {
  s_status : string;
  s_video : Z;
  s_total : Z }.

Definition get_status (st : state) : status :=
  mk_status (if stream_ready st then "ready" else "loading")
            (if current_index st >=? 0 then current_index st + 1 else 0)
            (Z.of_nat (List.length (playlist st))).


(** ** Paths ([HLS_DIR], [os.path.join]) *)

(** Python's [s.endswith(suf)]. *)
Definition ends_with (suf s : string) : bool :=
  let n := String.length s in
  let k := String.length suf in
  ((k <=? n)%nat && String.eqb (substring (n - k) k s) suf)%bool.

(** [posixpath.join(a, b)] for one component [b]. *)
Definition path_join (a b : string) : string :=
  if String.prefix "/" b then b
  else if String.eqb a "" || ends_with "/" a then (a ++ b)%string
  else (a ++ "/" ++ b)%string.

(** [HLS_DIR = os.path.join(os.getcwd(), "hls")] (line 12). *)
Definition HLS_DIR (cwd : string) : string := path_join cwd "hls".

(** [self.m3u8_file] (line 63). *)
Definition m3u8_file (cwd : string) : string := path_join (HLS_DIR cwd) "stream.m3u8".

(** The first chunk [_wait_for_stream] waits for (line 228). *)
Definition ts_path (cwd : string) : string := path_join (HLS_DIR cwd) "stream000.ts".

(** ** The transcoder command line of [_stream_video] (lines 190-224) *)

Definition stream_video_cmd (hls_dir video_url audio_url resolution bitrate : string)
    : list string :=
  let '(cmd_input, cmd_map) :=
    if String.eqb video_url audio_url then
      (["-i"; video_url], ["-map"; "0:v:0"; "-map"; "0:a:0"])
    else
      (["-i"; video_url; "-i"; audio_url], ["-map"; "0:v:0"; "-map"; "1:a:0"]) in
  ["ffmpeg"; "-re"] ++ cmd_input ++ cmd_map ++
  ["-c:v"; "libx264"; "-preset"; "ultrafast"; "-tune"; "zerolatency";
   "-pix_fmt"; "yuv420p";
   "-s"; resolution;
   "-b:v"; bitrate;
   "-c:a"; "aac"; "-b:a"; "128k";
   "-f"; "hls";
   "-hls_time"; "2";
   "-hls_list_size"; "5";
   "-hls_flags"; "delete_segments+append_list";
   "-hls_segment_filename"; (hls_dir ++ "/stream%03d.ts")%string;
   (hls_dir ++ "/stream.m3u8")%string].

(** The number of ["-i"] arguments of a command line. *)
Definition count_inputs (cmd : list string) : nat :=
  List.length (filter (fun a => String.eqb a "-i") cmd).

(** ** [_clean_hls_directory] (lines 260-268) *)

(** [f.endswith((".m3u8", ".ts"))]. *)
Definition hls_file (f : string) : bool :=
  ends_with ".m3u8" f || ends_with ".ts" f.

(** The [for] loop over [os.listdir(HLS_DIR)]: the directory left when
    [os.remove] raises for the names [remove_fails] gives; the first
    such exception ends the loop (it is caught outside it). *)
Fixpoint clean_loop (remove_fails : string -> bool) (fs : list string) : list string :=
  match fs with
  | [] => []
  | f :: fs' =>
      if hls_file f then
        if remove_fails f then f :: fs' else clean_loop remove_fails fs'
      else f :: clean_loop remove_fails fs'
  end.

(** The directory after the call; [listdir_ok] is false when
    [os.listdir] raises, and then nothing is removed. *)
Definition clean_hls_directory (listdir_ok : bool) (remove_fails : string -> bool)
    (dir : list string) : list string :=
  if listdir_ok then clean_loop remove_fails dir else dir.

(** ** [_get_media_url] (lines 157-188) *)

(** The keys of the info dictionary that [_get_media_url] reads: its
    ['url'] and its ['requested_formats'], each format given by its own
    ['url'] key ([None] when a key is absent). *)
Record media_info := mk_media_info {
  mi_url : option string;
  mi_requested_formats : option (list (option string)) }.

(** [info] is [None] when [extract_info] raised or returned [None] (with
    [ignoreerrors]); both end in the [except] branch. *)
Definition get_media_url (info : option media_info) : option string * option string :=
  match info with
  | None => (None, None)
  | Some i =>
      let fallback :=
        match mi_url i with
        | Some u => (Some u, Some u)
        | None => (None, None)
        end in
      match mi_url i, mi_requested_formats i with
      | Some u, None => (Some u, Some u)
      | _, Some fs =>
          if (2 <=? List.length fs)%nat then
            match fs with
            | Some v :: Some a :: _ => (Some v, Some a)
            | _ => (None, None)
            end
          else fallback
      | None, None => fallback
      end
  end.

(** ** [_get_playlist_videos] (lines 136-155) *)

(** A playlist entry: [None], or a dictionary with string values. *)
Definition py_entry := option (list (string * string)).

Fixpoint dict_get (k : string) (d : list (string * string)) : option string :=
  match d with
  | [] => None
  | (k', v) :: d' => if String.eqb k k' then Some v else dict_get k d'
  end.

(** [if entry]: [None] and the empty dictionary are false. *)
Definition entry_truthy (e : py_entry) : bool :=
  match e with Some (_ :: _) => true | _ => false end.

(** [entry["url"]], [None] when the key is absent. *)
Definition entry_url (e : py_entry) : option string :=
  match e with Some d => dict_get "url" d | None => None end.

(** [[entry["url"] for entry in entries if entry]]; [None] is the
    [KeyError] of an entry without ['url']. *)
Fixpoint collect_urls (es : list py_entry) : option (list string) :=
  match es with
  | [] => Some []
  | e :: es' =>
      if entry_truthy e then
        match e with
        | Some d =>
            match dict_get "url" d with
            | Some u =>
                match collect_urls es' with
                | Some us => Some (u :: us)
                | None => None
                end
            | None => None
            end
        | None => None
        end
      else collect_urls es'
  end.

(** The keys of the info dictionary that [_get_playlist_videos] reads. *)
Record playlist_info := mk_playlist_info {
  pi_type : option string;
  pi_entries : option (list py_entry) }.

(** [info] is [None] when [extract_info] raised or returned [None]; any
    exception gives []. *)
Definition get_playlist_videos (url : string) (info : option playlist_info) : list string :=
  match info with
  | None => []
  | Some i =>
      let is_playlist :=
        match pi_type i with Some t => String.eqb t "playlist" | None => false end in
      if is_playlist then
        match pi_entries i with
        | Some es => match collect_urls es with Some us => us | None => [] end
        | None => []
        end
      else [url]
  end.

(** ** The HTTP routes of [app.py] (lines 23-42) *)

Inductive request :=
  | ReqControl (command : string)
  | ReqSkip (video_num : Z)
  | ReqStatus.

Inductive response :=
  | RespError (code : Z) (detail : string)
  | RespCommand (command : string)
  | RespSkip (video : Z)
  | RespStatus (s : status).

(** One request against the manager's state. *)
Definition handle_request (st : state) (r : request) : state * response :=
  match r with
  | ReqControl command =>
      if String.eqb command "next" then (apply_api st ApiNext, RespCommand command)
      else if String.eqb command "prev" then (apply_api st ApiPrev, RespCommand command)
      else (st, RespError 400 "Invalid command")
  | ReqSkip video_num =>
      if video_num <? 1 then (st, RespError 400 "Invalid video number")
      else (apply_api st (ApiSkip video_num), RespSkip video_num)
  | ReqStatus => (st, RespStatus (get_status st))
  end.

Fixpoint handle_requests (st : state) (rs : list request) : state * list response :=
  match rs with
  | [] => (st, [])
  | r :: rs' =>
      let '(st1, resp) := handle_request st r in
      let '(st2, resps) := handle_requests st1 rs' in
      (st2, resp :: resps)
  end.


(** ** Sample inputs *)

Definition cfg720 : config :=
  mk_config "https://example.org/playlist"
            "bestvideo[height<=720]+bestaudio/best[height<=720]" "1280x720" "2500k".

Definition locator_ok (page format : string) : option string * option string :=
  (Some ("video:" ++ page)%string, Some ("audio:" ++ page)%string).

Definition locator_fail (page format : string) : option string * option string :=
  (None, None).

Definition probe_ok : list probe_obs := [mk_probe_obs true true false].

Definition abc : list string := ["A"; "B"; "C"].

Definition st_abc (i : Z) (q : list qitem) : state := mk_state abc i false None q false.

Definition st_init : state := mk_state [] (-1) false None [] false.

(** A video that plays and ends on its own. *)
Definition env_plays (resolved : list string) : env :=
  mk_env resolved locator_ok probe_ok [] [] None.

(** A video whose media URLs cannot be found. *)
Definition env_no_media : env := mk_env [] locator_fail probe_ok [] [] None.

(** A video during which [next()] is called while it is live. *)
Definition env_next_while_live : env :=
  mk_env [] locator_ok probe_ok [[]; [ApiNext]] [] None.

(** A video whose monitoring loop raises once the process is live. *)
Definition env_crash : env :=
  mk_env [] locator_ok probe_ok [[]] [] (Some RaiseMonitor).

(** A video during which [stop()] is called while it is live. *)
Definition env_stop_while_live : env :=
  mk_env [] locator_ok probe_ok [[ApiStop]] [] None.

(** * Properties *)

(** ** Quality catalog *)

(** C9: an identifier absent from [QUALITY_PRESETS] (such as "9999p") does
    not make construction fail: the configuration is the "720p" preset's,
    the same as for "720p" itself. *)
Theorem init_config_unknown_quality_falls_back (url quality_key : string)
    (Hunknown : preset_mem quality_key QUALITY_PRESETS = false) :
  init_config url quality_key = init_config url "720p" /\
  init_config url "720p" =
    Some (mk_config url "bestvideo[height<=720]+bestaudio/best[height<=720]"
                    "1280x720" "2500k").
Proof.
  unfold init_config. rewrite Hunknown. cbn. split; reflexivity.
Qed.

Lemma init_config_unknown_quality_falls_back_witness :
  preset_mem "9999p" QUALITY_PRESETS = false /\
  init_config "https://example.org/playlist" "9999p"
  = init_config "https://example.org/playlist" "720p".
Proof.
  split; [reflexivity |].
  apply (proj1 (init_config_unknown_quality_falls_back
                  "https://example.org/playlist" "9999p" eq_refl)).
Defined.

(** ** Startup probe *)

(** C10: in one polling iteration the two-file readiness test comes before
    the process-exit test: once both files are ready (observed now or in an
    earlier iteration) the probe returns true whatever [poll()] says; it
    returns false for an exited process only when the files are not both
    ready yet. *)
Theorem wait_loop_ready_test_before_exit_test
    (m3u8_ready ts_ready : bool) (o : probe_obs) (rest : list probe_obs) :
  ((m3u8_ready || po_m3u8 o) && (ts_ready || po_ts o) = true ->
   wait_loop m3u8_ready ts_ready (o :: rest) = true) /\
  ((m3u8_ready || po_m3u8 o) && (ts_ready || po_ts o) = false ->
   po_exited o = true ->
   wait_loop m3u8_ready ts_ready (o :: rest) = false).
Proof.
  destruct o as [m t x].
  destruct m3u8_ready, ts_ready, m, t, x; cbn; split; intros; congruence.
Qed.

Lemma wait_loop_ready_test_before_exit_test_witness :
  wait_for_stream [mk_probe_obs true true true] = true /\
  wait_for_stream [mk_probe_obs true false true; mk_probe_obs true true false] = false.
Proof.
  split.
  - apply (proj1 (wait_loop_ready_test_before_exit_test false false
                    (mk_probe_obs true true true) [])); reflexivity.
  - apply (proj2 (wait_loop_ready_test_before_exit_test false false
                    (mk_probe_obs true false true) [mk_probe_obs true true false]));
      reflexivity.
Defined.

(** ** Index logic *)

Lemma normalize_index_spec (len i : Z) :
  0 < len ->
  0 <= normalize_index len i < len /\
  (len <= i -> normalize_index len i = 0) /\
  (i < 0 -> normalize_index len i = len - 1) /\
  (0 <= i < len -> normalize_index len i = i).
Proof.
  intros Hlen. unfold normalize_index.
  destruct (0 <=? i) eqn:H0, (i <? len) eqn:H1, (len <=? i) eqn:H2, (i <? 0) eqn:H3;
    rewrite ?Z.leb_le, ?Z.leb_gt, ?Z.ltb_lt, ?Z.ltb_ge in *; cbn; lia.
Qed.

(** C4: with a non-empty playlist the boundary handling always lands in
    [[0, len)], wrapping [>= len] to [0] and [< 0] to [len - 1]; hence
    every index reached by a sequence of commands and natural
    advancements is in range. *)
Theorem normalize_index_in_range (len : Z) (Hlen : 0 < len) :
  (forall i,
     0 <= normalize_index len i < len /\
     (len <= i -> normalize_index len i = 0) /\
     (i < 0 -> normalize_index len i = len - 1)) /\
  (forall i ss, Forall (fun j => 0 <= j < len) (index_trace len i ss)).
Proof.
  split.
  - intros i. destruct (normalize_index_spec len i Hlen) as (? & ? & ? & _). auto.
  - intros i ss. revert i. induction ss as [| s ss IH]; intros i; cbn.
    + constructor.
    + constructor; [apply normalize_index_spec; exact Hlen | apply IH].
Qed.

Lemma normalize_index_in_range_witness :
  0 < 3 /\ normalize_index 3 3 = 0 /\ normalize_index 3 (-1) = 2 /\
  Forall (fun j => 0 <= j < 3)
    (index_trace 3 0 [StepAdvance; StepAdvance; StepAdvance;
                      StepCommand QPrev; StepCommand (QSkip 7)]).
Proof.
  assert (H : 0 < 3) by lia.
  destruct (normalize_index_in_range 3 H) as [Hn Ht].
  split; [exact H |].
  split; [apply (proj1 (proj2 (Hn 3))); lia |].
  split; [apply (proj2 (proj2 (Hn (-1)))); lia |].
  apply Ht.
Defined.

(** C3, refuted: a skip past the end does not land on [(n - 1) mod len]
    (here [skip(5)] on three videos lands on index 0, not 1). *)
Lemma skip_lands_on_mod_counterexample :
  ~ (forall n len i, 1 <= n -> 0 < len ->
       normalize_index len (apply_command (QSkip n) i) = (n - 1) mod len).
Proof.
  intros H. specialize (H 5 3 0). cbn in H.
  assert (E : 0 = 1) by (apply H; lia). discriminate E.
Qed.

(** C3, as the code does it: [skip(n)] with [n >= 1] on a playlist of
    length [len > 0] lands on [n - 1] when [n <= len] and on [0]
    otherwise, whatever the previous index; repeating the same skip lands
    on the same index. *)
Theorem skip_then_normalize (n len i : Z) (Hn : 1 <= n) (Hlen : 0 < len) :
  normalize_index len (apply_command (QSkip n) i) =
    (if n <=? len then n - 1 else 0) /\
  normalize_index len
    (apply_command (QSkip n) (normalize_index len (apply_command (QSkip n) i)))
  = normalize_index len (apply_command (QSkip n) i).
Proof.
  cbn [apply_command]. split; [| reflexivity].
  destruct (normalize_index_spec len (n - 1) Hlen) as (_ & Hge & _ & Hin).
  destruct (n <=? len) eqn:E; rewrite ?Z.leb_le, ?Z.leb_gt in E.
  - apply Hin. lia.
  - apply Hge. lia.
Qed.

Lemma skip_then_normalize_witness :
  normalize_index 3 (apply_command (QSkip 3) 0) = 2 /\
  normalize_index 3 (apply_command (QSkip 5) 1) = 0.
Proof.
  split.
  - exact (proj1 (skip_then_normalize 3 3 0 ltac:(lia) ltac:(lia))).
  - exact (proj1 (skip_then_normalize 5 3 1 ltac:(lia) ltac:(lia))).
Defined.

(** ** The worker cycle at concrete inputs *)

(** C1 (at a concrete input): when the media locator fails for video B
    (index 1 of [A; B; C]) no process is launched and the loop goes on,
    but [command = 'next'] keeps the [finally] block from advancing: the
    index stays 1 and the next cycle tries B again. *)
Theorem media_failure_keeps_index :
  worker_cycle cfg720 (st_abc 1 []) env_no_media
    = (Continues, st_abc 1 [], [EvStart 1 "B"; EvSleep 3000]) /\
  stream_worker cfg720 (st_abc 1 []) [env_no_media; env_no_media; env_no_media]
    = (st_abc 1 [],
       [EvStart 1 "B"; EvSleep 3000; EvStart 1 "B"; EvSleep 3000;
        EvStart 1 "B"; EvSleep 3000], false).
Proof. split; vm_compute; reflexivity. Qed.

(** C2 (at a concrete input): on the first start, an empty playlist result
    is followed by the [finally] block's auto-advance, so the index moves
    from -1 to 0; after two empty results the playlist starts at its
    second video, not its first. *)
Theorem empty_playlist_moves_index :
  worker_cycle cfg720 st_init (env_plays [])
    = (Continues, set_index st_init 0,
       [EvFetchPlaylist; EvSleep 60000; EvSleep 3000]) /\
  (let '(st, tr, _) :=
     stream_worker cfg720 st_init [env_plays []; env_plays []; env_plays abc] in
   started_videos tr = [1]).
Proof. split; vm_compute; reflexivity. Qed.

(** C6 (at a concrete input): after [next()] moves from A to B, B ends on
    its own with nothing queued and no stop pending, yet the index stays
    on B (the cycle's [command] is ["next"]), so B is played twice. *)
Theorem commanded_video_natural_end_keeps_index :
  (let '(o, st, _) := worker_cycle cfg720 (st_abc 0 [QNext]) (env_plays []) in
   (o, current_index st, command_queue st, stop_event st))
    = (Continues, 1, [], false) /\
  (let '(_, tr, _) :=
     stream_worker cfg720 (st_abc 0 [QNext]) [env_plays []; env_plays []] in
   started_videos tr = [1; 1]).
Proof. split; vm_compute; reflexivity. Qed.

(** C5, refuted: [next()] while A is live terminates A's process, yet the
    readiness signal is still set after the cycle, with no process
    handle. *)
Lemma ready_after_termination_counterexample :
  let '(_, st, tr) := worker_cycle cfg720 (st_abc 0 []) env_next_while_live in
  In EvTerminate tr /\ stream_ready st = true /\ ffmpeg_proc st = None.
Proof. vm_compute. split; [auto 10 | split; reflexivity]. Qed.

(** ** Facts about the API calls and the monitoring loop *)

Lemma apply_api_keeps (st : state) (a : api_call) :
  playlist (apply_api st a) = playlist st /\
  current_index (apply_api st a) = current_index st /\
  stream_ready (apply_api st a) = stream_ready st /\
  ffmpeg_proc (apply_api st a) = ffmpeg_proc st /\
  command_queue (apply_api st a) = command_queue st ++ [api_item a] /\
  (stop_event st = true -> stop_event (apply_api st a) = true) /\
  (stop_inv st -> stop_inv (apply_api st a)).
Proof.
  unfold stop_inv.
  destruct a; cbn; repeat split; auto; intros Hinv Hin;
    apply in_app_or in Hin; destruct Hin as [Hin | [Hs | []]];
    solve [auto | discriminate].
Qed.

Lemma apply_apis_keeps (l : list api_call) : forall (st : state),
  playlist (apply_apis st l) = playlist st /\
  current_index (apply_apis st l) = current_index st /\
  stream_ready (apply_apis st l) = stream_ready st /\
  ffmpeg_proc (apply_apis st l) = ffmpeg_proc st /\
  command_queue (apply_apis st l) = command_queue st ++ map api_item l /\
  (stop_event st = true -> stop_event (apply_apis st l) = true) /\
  (stop_inv st -> stop_inv (apply_apis st l)).
Proof.
  unfold apply_apis. induction l as [| a l IH]; intros st; cbn.
  - rewrite app_nil_r. repeat split; auto.
  - destruct (apply_api_keeps st a) as (H1 & H2 & H3 & H4 & H5 & H6 & H7).
    destruct (IH (apply_api st a)) as (I1 & I2 & I3 & I4 & I5 & I6 & I7).
    rewrite I1, I2, I3, I4, I5, H1, H2, H3, H4, H5, <- app_assoc.
    repeat split; auto.
Qed.

Lemma monitor_keeps (its : list (list api_call)) : forall (st st' : state) tr,
  monitor st its = (st', tr) ->
  playlist st' = playlist st /\
  current_index st' = current_index st /\
  stream_ready st' = stream_ready st /\
  ffmpeg_proc st' = ffmpeg_proc st /\
  (stop_event st = true -> stop_event st' = true) /\
  (stop_inv st -> stop_inv st') /\
  (forall ev, In ev tr -> ev = EvTerminate \/ ev = EvSleep 500).
Proof.
  induction its as [| calls rest IH]; intros st st' tr Hm; cbn in Hm.
  - injection Hm as <- <-. repeat split; auto. intros ev [].
  - destruct (apply_apis_keeps calls st) as (H1 & H2 & H3 & H4 & _ & H6 & H7).
    destruct (stop_event (apply_apis st calls)) eqn:Hs;
      [| destruct (is_nil (command_queue (apply_apis st calls)))];
      cbn in Hm.
    + injection Hm as <- <-. repeat split; auto.
      intros ev [<- | []]; auto.
    + destruct (monitor (apply_apis st calls) rest) as [st2 tr2] eqn:Hm2.
      injection Hm as <- <-.
      destruct (IH _ _ _ Hm2) as (J1 & J2 & J3 & J4 & J6 & J7 & J8).
      rewrite J1, J2, J3, J4, H1, H2, H3, H4. repeat split; auto.
      * intros Hst. discriminate (H6 Hst).
      * intros ev [<- | Hin]; auto.
    + injection Hm as <- <-. repeat split; auto.
      * intros Hst. discriminate (H6 Hst).
      * intros ev [<- | []]; auto.
Qed.

Lemma monitor_quiet_then_call (k : nat) :
  forall (st : state) (a : api_call) rest,
  command_queue st = [] -> stop_event st = false ->
  monitor st (repeat [] k ++ [a] :: rest)
  = (apply_api st a, repeat (EvSleep 500) k ++ [EvTerminate]).
Proof.
  induction k as [| k IH]; intros st a rest Hq Hs; cbn.
  - destruct (stop_event (apply_api st a)); [reflexivity |].
    destruct (apply_api_keeps st a) as (_ & _ & _ & _ & H5 & _).
    rewrite H5, Hq. reflexivity.
  - rewrite Hs, Hq. cbn. rewrite (IH st a rest Hq Hs). reflexivity.
Qed.

Lemma quiet_trace (l : list event) :
  (forall ev, In ev l -> ev = EvTerminate \/ ev = EvSleep 500) ->
  ~ In EvError l /\ (forall b, ~ In (EvReady b) l) /\
  (forall h, ~ In (EvLaunch h) l) /\ existsb is_launch l = false.
Proof.
  intros H. split; [| split; [| split]].
  - intros Hin. destruct (H _ Hin); discriminate.
  - intros b Hin. destruct (H _ Hin); discriminate.
  - intros h Hin. destruct (H _ Hin); discriminate.
  - apply not_true_iff_false. intros Hex. apply existsb_exists in Hex.
    destruct Hex as (ev & Hin & Hl). destruct (H _ Hin); subst; discriminate.
Qed.

Lemma try_facts_idle (e : env) (st st1 : state) (tr : list event) :
  (forall ev, In ev tr ->
     ev <> EvError /\ (forall b, ev <> EvReady b) /\ (forall h, ev <> EvLaunch h)) ->
  stream_ready st1 = stream_ready st -> ffmpeg_proc st1 = ffmpeg_proc st ->
  (stop_event st = true -> stop_event st1 = true) ->
  (stop_inv st -> stop_inv st1) ->
  try_facts e st st1 tr.
Proof.
  intros Hq Hr Hp Hs Hi. unfold try_facts.
  assert (Hnl : existsb is_launch tr = false).
  { apply not_true_iff_false. intros Hex. apply existsb_exists in Hex.
    destruct Hex as (ev & Hin & Hl). destruct (Hq _ Hin) as (_ & _ & H3).
    destruct ev; try discriminate. eapply H3; reflexivity. }
  rewrite Hr, Hnl.
  split. { intros Hin. apply (proj1 (Hq _ Hin)). reflexivity. }
  split.
  { split.
    - intros Hrd. right. split; [| exact Hrd].
      intros Hin. exact (proj1 (proj2 (Hq _ Hin)) false eq_refl).
    - intros [Hin | [_ Hrd]]; [| exact Hrd].
      exfalso. exact (proj1 (proj2 (Hq _ Hin)) true eq_refl). }
  split. { intros Hin. exfalso. exact (proj1 (proj2 (Hq _ Hin)) true eq_refl). }
  split. { intros h Hin. exfalso. exact (proj2 (proj2 (Hq _ Hin)) h eq_refl). }
  split. { intros _. exact Hp. }
  split. { discriminate. }
  split; assumption.
Qed.

Ltac destr_in H :=
  match type of H with
  | context [match ?x with _ => _ end] => destruct x eqn:?
  end.

Lemma play_facts (cfg : config) (e : env) (command : option string)
    (st : state) (tr0 : list event) fl command' st1 tr :
  play cfg e command st tr0 = (fl, command', st1, tr) ->
  fl <> FBreak /\ exists tr', tr = tr0 ++ tr' /\ try_facts e st st1 tr'.
Proof.
  unfold play. intros H.
  repeat (destr_in H; cbv beta iota zeta in H).
  all: injection H as <- <- <- <-; split; [discriminate |].
  all: first [ exists []; rewrite app_nil_r; split; [reflexivity |]
             | eexists; split; [rewrite <- ?app_assoc; reflexivity |] ].
  all: try solve [
         apply try_facts_idle; auto;
         intros ev Hin; cbn in Hin; repeat destruct Hin as [<- | Hin];
         try contradiction; repeat split; intros; discriminate ].
  all: unfold try_facts, stop_inv; cbn -[wait_for_stream].
  all: try match goal with
       | Hm : monitor _ _ = (_, _) |- _ =>
           destruct (monitor_keeps _ _ _ _ Hm) as (M1 & M2 & M3 & M4 & M5 & M6 & M7);
           destruct (quiet_trace _ M7) as (Q1 & Q2 & Q3 & Q4);
           cbn in M1, M2, M3, M4, M5, M6; unfold stop_inv in M6; cbn in M6
       end.
  all: refine (conj _ (conj _ (conj _ (conj _ (conj _ (conj _ (conj _ _))))))).
  all: try solve [intros Hin; repeat destruct Hin as [Hin | Hin];
                  solve [discriminate | contradiction | eapply Q1; eauto]].
  all: try solve [intuition (try discriminate; try contradiction; auto)].
  all: try solve [intros _; match goal with
                  | Hw : negb (wait_for_stream _) = false |- _ =>
                      apply negb_false_iff in Hw; exact Hw end].
  all: try solve [intros _; match goal with
                  | Hp : ffmpeg_proc _ = Some _ |- _ => rewrite Hp; discriminate end].
  all: intros h Hin; repeat destruct Hin as [Hin | Hin];
         try discriminate; try contradiction;
         try (exfalso; eapply Q3; exact Hin).
  all: injection Hin as <-; exists [EvStart (current_index st) s; EvClean];
         eexists; reflexivity.
Qed.


Lemma try_facts_prefix (e : env) (st st' st1 : state) (pre tr : list event) :
  ~ In EvError pre -> (forall b, ~ In (EvReady b) pre) -> existsb is_launch pre = false ->
  stream_ready st' = stream_ready st -> ffmpeg_proc st' = ffmpeg_proc st ->
  stop_event st' = stop_event st -> (stop_inv st -> stop_inv st') ->
  try_facts e st' st1 tr -> try_facts e st st1 (pre ++ tr).
Proof.
  intros Pe Pr Pl Hr Hp Hs Hi (F1 & F2 & F3 & F4 & F5 & F6 & F7 & F8).
  rewrite Hr in F2. rewrite Hp in F5. rewrite Hs in F7.
  unfold try_facts. rewrite existsb_app, Pl. cbn [orb].
  split. { rewrite in_app_iff. intros [H | H]; auto. }
  split.
  { rewrite F2, !in_app_iff. split.
    - intros [H | [H1 H2]]; [left; right; exact H |].
      right. split; [| exact H2]. intros [H | H]; [exact (Pr _ H) | exact (H1 H)].
    - intros [[H | H] | [H1 H2]]; [exfalso; exact (Pr _ H) | left; exact H |].
      right. split; [| exact H2]. intros H. apply H1. right. exact H. }
  split. { rewrite in_app_iff. intros [H | H]; [exfalso; exact (Pr _ H) | auto]. }
  split.
  { intros h. rewrite in_app_iff. intros [H | H].
    - exfalso. apply not_true_iff_false in Pl. apply Pl.
      apply existsb_exists. exists (EvLaunch h). auto.
    - destruct (F4 h H) as (t1 & t2 & ->). exists (pre ++ t1), t2.
      rewrite <- app_assoc. reflexivity. }
  split; [exact F5 |]. split; [exact F6 |]. split; [exact F7 |].
  intros H. apply F8, Hi, H.
Qed.

Lemma ensure_facts (cfg : config) (e : env) (command : option string) (st : state)
    fl command' st1 tr :
  ensure_playlist_and_play cfg e command st = (fl, command', st1, tr) ->
  fl <> FBreak /\ try_facts e st st1 tr.
Proof.
  unfold ensure_playlist_and_play. intros H.
  destruct (is_nil (playlist st)); [destruct (raises e RaiseResolve) |].
  - injection H as <- <- <- <-. split; [discriminate |].
    apply try_facts_idle; auto.
    intros ev [<- | []]. repeat split; intros; discriminate.
  - destruct (is_nil (playlist (set_playlist st (env_resolver e)))).
    + injection H as <- <- <- <-. split; [discriminate |].
      apply try_facts_idle; auto.
      intros ev Hin. cbn in Hin.
      destruct Hin as [<- | [<- | []]]; repeat split; intros; discriminate.
    + match type of H with play _ _ _ ?s _ = _ => set (st' := s) in H end.
      destruct (play_facts _ _ _ _ _ _ _ _ _ H) as (Hfl & tr' & -> & Hf).
      split; [exact Hfl |].
      apply (try_facts_prefix e st st'); auto.
      * intros [Hx | []]; discriminate.
      * intros b [Hx | []]; discriminate.
      * subst st'. destruct (current_index _ =? -1); reflexivity.
      * subst st'. destruct (current_index _ =? -1); reflexivity.
      * subst st'. destruct (current_index _ =? -1); reflexivity.
      * subst st'. unfold stop_inv. destruct (current_index _ =? -1); exact (fun H => H).
  - destruct (play_facts _ _ _ _ _ _ _ _ _ H) as (Hfl & tr' & -> & Hf).
    split; [exact Hfl |]. exact Hf.
Qed.

Lemma try_block_facts (cfg : config) (e : env) (st : state) fl command st1 tr :
  try_block cfg e st = (fl, command, st1, tr) ->
  (fl = FBreak -> hd_error (command_queue st) = Some QStop) /\ try_facts e st st1 tr.
Proof.
  unfold try_block. intros H.
  destruct (command_queue st) as [| c q] eqn:Hq.
  - destruct (ensure_facts _ _ _ _ _ _ _ _ H) as [Hfl Hf].
    split; [intros E; contradiction | exact Hf].
  - destruct c.
    + injection H as <- <- <- <-. split; [reflexivity |].
      apply try_facts_idle; auto.
      unfold stop_inv. rewrite Hq. cbn. intros Hi Hin. apply Hi. right. exact Hin.
    + destruct (ensure_facts _ _ _ _ _ _ _ _ H) as [Hfl Hf].
      split; [intros E; contradiction |].
      refine (try_facts_prefix e st _ st1 [] tr _ _ _ _ _ _ _ Hf);
        [intros [] | intros ? [] | reflexivity | reflexivity | reflexivity
        | reflexivity |].
      unfold stop_inv. rewrite Hq. cbn. intros Hi Hin. apply Hi. right. exact Hin.
    + destruct (ensure_facts _ _ _ _ _ _ _ _ H) as [Hfl Hf].
      split; [intros E; contradiction |].
      refine (try_facts_prefix e st _ st1 [] tr _ _ _ _ _ _ _ Hf);
        [intros [] | intros ? [] | reflexivity | reflexivity | reflexivity
        | reflexivity |].
      unfold stop_inv. rewrite Hq. cbn. intros Hi Hin. apply Hi. right. exact Hin.
    + destruct (ensure_facts _ _ _ _ _ _ _ _ H) as [Hfl Hf].
      split; [intros E; contradiction |].
      refine (try_facts_prefix e st _ st1 [] tr _ _ _ _ _ _ _ Hf);
        [intros [] | intros ? [] | reflexivity | reflexivity | reflexivity
        | reflexivity |].
      unfold stop_inv. rewrite Hq. cbn. intros Hi Hin. apply Hi. right. exact Hin.
Qed.

Lemma finally_keeps (e : env) (command : option string) (st : state) :
  let st' := apply_apis (set_proc st None) (env_final e) in
  let st'' := if negb (py_truthy command) && is_nil (command_queue st')
                 && negb (stop_event st')
              then set_index st' (current_index st' + 1) else st' in
  stream_ready st'' = stream_ready st /\ ffmpeg_proc st'' = None /\
  (stop_event st = true -> stop_event st'' = true) /\
  (stop_inv st -> stop_inv st'').
Proof.
  cbv zeta.
  destruct (apply_apis_keeps (env_final e) (set_proc st None)) as (_ & _ & H3 & H4 & _ & H6 & H7).
  destruct (_ && _ && _); cbn; rewrite H3, H4; repeat split; auto;
    unfold stop_inv in *; cbn in *; auto.
Qed.

Lemma worker_cycle_facts (cfg : config) (st : state) (e : env) o st' tr :
  worker_cycle cfg st e = (o, st', tr) ->
  exists fl command st1 tr1 tr2,
    try_block cfg e st = (fl, command, st1, tr1) /\
    (o = Broke <-> fl = FBreak) /\
    stream_ready st' = stream_ready st1 /\
    ffmpeg_proc st' = None /\
    (stop_event st1 = true -> stop_event st' = true) /\
    (stop_inv st1 -> stop_inv st') /\
    tr = tr1 ++ tr2 /\
    (forall ev, In ev tr2 -> ev = EvError \/ ev = EvTerminate \/ exists ms, ev = EvSleep ms) /\
    (fl = FRaise -> exists tr3,
       tr2 = EvError :: (match ffmpeg_proc st1 with Some _ => [EvTerminate] | None => [] end)
             ++ EvSleep 10000 :: tr3) /\
    (fl <> FRaise -> ~ In EvError tr2).
Proof.
  unfold worker_cycle. intros H.
  destruct (try_block cfg e st) as [[[fl command] st1] tr1] eqn:Htry.
  cbv beta iota zeta in H.
  destruct (finally_keeps e command st1) as (K1 & K2 & K3 & K4).
  cbv zeta in K1, K2, K3, K4.
  set (stf := apply_apis (set_proc st1 None) (env_final e)) in *.
  set (b := negb (py_truthy command) && is_nil (command_queue stf) && negb (stop_event stf)) in *.
  set (st'' := if b then set_index stf (current_index stf + 1) else stf) in *.
  set (tre := match fl with
              | FRaise => [EvError] ++ (match ffmpeg_proc st1 with Some _ => [EvTerminate] | None => [] end)
                          ++ [EvSleep 10000]
              | _ => [] end).
  set (trs := if is_nil (command_queue st'') then [EvSleep 3000] else []).
  assert (Htr : tr = tr1 ++ tre ++ trs /\
                o = (match fl with FBreak => Broke | _ => Continues end) /\ st' = st'').
  { subst tre trs. destruct fl; cbv beta iota in H;
      destruct (is_nil (command_queue st'')); injection H as <- <- <-;
      (split; [destruct (ffmpeg_proc st1); cbn [app]; rewrite <- ?app_assoc, ?app_nil_r; reflexivity | split; reflexivity]). }
  destruct Htr as (-> & -> & ->).
  exists fl, command, st1, tr1, (tre ++ trs).
  split; [reflexivity |].
  split; [destruct fl; split; intros; congruence |].
  split; [exact K1 |]. split; [exact K2 |]. split; [exact K3 |]. split; [exact K4 |].
  split; [reflexivity |].
  split.
  { intros ev Hin. apply in_app_or in Hin. subst tre trs.
    destruct Hin as [Hin | Hin];
      [destruct fl; cbn in Hin; [contradiction .. |];
       destruct (ffmpeg_proc st1); cbn in Hin
      | destruct (is_nil (command_queue st'')); cbn in Hin];
      repeat match goal with H : _ \/ _ |- _ => destruct H as [H | H] end;
      try contradiction; subst;
      first [left; reflexivity | right; left; reflexivity | right; right; eexists; reflexivity]. }
  split.
  { intros ->. exists trs. subst tre. destruct (ffmpeg_proc st1); reflexivity. }
  { intros Hfl Hin. apply in_app_or in Hin. subst tre trs. destruct Hin as [Hin | Hin].
    - destruct fl; cbn in Hin; first [contradiction | congruence].
    - destruct (is_nil (command_queue st'')); cbn in Hin; [destruct Hin as [Hin | []]; discriminate | contradiction]. }
Qed.

(** ** Readiness over one cycle *)

Lemma tail_quiet (tr2 : list event) :
  (forall ev, In ev tr2 -> ev = EvError \/ ev = EvTerminate \/ exists ms, ev = EvSleep ms) ->
  (forall b, ~ In (EvReady b) tr2) /\ (forall h, ~ In (EvLaunch h) tr2).
Proof.
  intros Hq. split.
  - intros b Hin. destruct (Hq _ Hin) as [E | [E | [ms E]]]; discriminate E.
  - intros h Hin. destruct (Hq _ Hin) as [E | [E | [ms E]]]; discriminate E.
Qed.

Lemma in_quiet_suffix (tr1 tr2 : list event) (ev : event) :
  ~ In ev tr2 -> (In ev (tr1 ++ tr2) <-> In ev tr1).
Proof.
  intros Hn. split.
  - intros Hin. apply in_app_or in Hin. destruct Hin as [Hin | Hin]; [exact Hin | contradiction].
  - intros Hin. apply in_or_app. left. exact Hin.
Qed.

(** C5 (amended): over one cycle of the worker, readiness ends up true
    exactly when the cycle set it after a successful startup probe, or
    when the cycle never cleared it and it was already true; it is set
    only after the startup probe of that cycle succeeded, and every
    process launch is immediately preceded by clearing it.  Terminating
    a process does not touch it. *)
Theorem ready_cleared_before_launch_set_after_probe
    (cfg : config) (st : state) (e : env) (o : outcome) (st' : state) (tr : list event)
    (Hcyc : worker_cycle cfg st e = (o, st', tr)) :
  (stream_ready st' = true <->
     In (EvReady true) tr \/ (~ In (EvReady false) tr /\ stream_ready st = true)) /\
  (In (EvReady true) tr -> wait_for_stream (env_probe e) = true) /\
  (forall h, In (EvLaunch h) tr -> exists tr1 tr2, tr = tr1 ++ EvReady false :: EvLaunch h :: tr2).
Proof.
  destruct (worker_cycle_facts cfg st e o st' tr Hcyc)
    as (fl & command & st1 & tr1 & tr2 & Htry & _ & Hr & _ & _ & _ & -> & Hq & _ & _).
  destruct (try_block_facts cfg e st fl command st1 tr1 Htry)
    as [_ (_ & Hready & Hprobe & Hlaunch & _)].
  destruct (tail_quiet tr2 Hq) as [Qr Ql].
  rewrite Hr, !(in_quiet_suffix tr1 tr2 _ (Qr _)).
  split; [exact Hready |]. split; [exact Hprobe |].
  intros h Hin. apply (in_quiet_suffix tr1 tr2 _ (Ql h)) in Hin.
  destruct (Hlaunch h Hin) as (x & y & ->).
  exists x, (y ++ tr2). rewrite <- app_assoc. reflexivity.
Qed.

Lemma ready_cleared_before_launch_set_after_probe_witness :
  let '(o, st', tr) := worker_cycle cfg720 (st_abc 0 []) env_next_while_live in
  (stream_ready st' = true <->
     In (EvReady true) tr \/ (~ In (EvReady false) tr /\ stream_ready (st_abc 0 []) = true)) /\
  (In (EvReady true) tr -> wait_for_stream (env_probe env_next_while_live) = true) /\
  (forall h, In (EvLaunch h) tr -> exists tr1 tr2, tr = tr1 ++ EvReady false :: EvLaunch h :: tr2).
Proof.
  destruct (worker_cycle cfg720 (st_abc 0 []) env_next_while_live) as [[o st'] tr] eqn:Hc.
  exact (ready_cleared_before_launch_set_after_probe cfg720 (st_abc 0 []) env_next_while_live o st' tr Hc).
Defined.

(** ** A command during the live phase *)

Lemma started_videos_sleeps (ms : Z) (k : nat) (tr : list event) :
  started_videos (repeat (EvSleep ms) k ++ tr) = started_videos tr.
Proof. induction k; cbn; auto. Qed.

Ltac not_in H := exfalso; cbn in H; intuition discriminate.

(** C7: when the process of the cycle went live and, after [k] quiet
    polls of the monitoring loop, a [next]/[prev]/[skip] call arrives,
    the cycle terminates the process, ends normally, leaves exactly that
    command in the queue for the next cycle, and does not auto-advance:
    the index is still the one of the video that was started. *)
Theorem command_during_live_terminates_without_double_advance
    (cfg : config) (st : state) (e : env) (k : nat) (a : api_call)
    (rest : list (list api_call)) (o : outcome) (st' : state) (tr : list event)
    (Hstop : stop_event st = false)
    (Hq : (List.length (command_queue st) <= 1)%nat)
    (Hraise : env_raise e = None)
    (Hmon : env_monitor e = repeat [] k ++ [a] :: rest)
    (Ha : a <> ApiStop)
    (Hfin : env_final e = [])
    (Hcyc : worker_cycle cfg st e = (o, st', tr))
    (Hlive : In (EvReady true) tr) :
  o = Continues /\ command_queue st' = [api_item a] /\ stop_event st' = false /\
  In EvTerminate tr /\ started_videos tr = [current_index st'].
Proof.
  destruct st as [pl ci rd pr q se]; cbn in Hstop, Hq; subst se.
  unfold worker_cycle in Hcyc.
  destruct (try_block cfg e _) as [[[fl cmd] st1] tr1] eqn:Htry.
  unfold try_block, ensure_playlist_and_play, play, raises in Htry.
  rewrite Hraise, Hmon in Htry. cbn in Htry. rewrite Hfin in Hcyc.
  destruct q as [| c [| c' q]]; [| | cbn in Hq; lia].
  all: repeat (destr_in Htry; cbn in Htry).
  all: injection Htry as <- <- <- <-.
  all: try match goal with Hm : monitor _ _ = _ |- _ =>
         rewrite monitor_quiet_then_call in Hm by (cbn; auto); injection Hm as <- <- end.
  all: destruct a; try congruence.
  all: cbn in Hcyc.
  all: repeat (destr_in Hcyc; cbn in Hcyc).
  all: injection Hcyc as <- <- <-.
  all: try solve [not_in Hlive].
  all: cbn; rewrite ?started_videos_sleeps; cbn.
  all: split; [reflexivity |]; split; [reflexivity |]; split; [reflexivity |].
  all: split; [| reflexivity].
  all: repeat right; apply in_or_app; right; left; reflexivity.
Qed.

Lemma command_during_live_terminates_without_double_advance_witness :
  let '(o, st', tr) := worker_cycle cfg720 (st_abc 0 []) env_next_while_live in
  o = Continues /\ command_queue st' = [api_item ApiNext] /\ stop_event st' = false /\
  In EvTerminate tr /\ started_videos tr = [current_index st'].
Proof.
  assert (Hlive : In (EvReady true)
            (snd (worker_cycle cfg720 (st_abc 0 []) env_next_while_live)))
    by (vm_compute; tauto).
  destruct (worker_cycle cfg720 (st_abc 0 []) env_next_while_live) as [[o st'] tr] eqn:Hc.
  exact (command_during_live_terminates_without_double_advance
           cfg720 (st_abc 0 []) env_next_while_live 1 ApiNext [] o st' tr
           eq_refl (le_S _ _ (le_n 0)) eq_refl eq_refl ltac:(discriminate) eq_refl Hc Hlive).
Defined.

(** ** Errors and exit *)

Lemma stream_worker_exit (cfg : config) (envs : list env) :
  forall st st' tr, stop_inv st -> stream_worker cfg st envs = (st', tr, true) ->
  stop_event st' = true /\ stream_ready st' = true /\ exists tr0, tr = tr0 ++ [EvReady true].
Proof.
  induction envs as [| e es IH]; intros st st' tr Hinv H; cbn in H.
  - discriminate H.
  - destruct (stop_event st) eqn:Hs.
    + injection H as <- <-. cbn. split; [exact Hs |]. split; [reflexivity |].
      exists []. reflexivity.
    + destruct (worker_cycle cfg st e) as [[o st1] tr1] eqn:Hc.
      destruct (worker_cycle_facts cfg st e o st1 tr1 Hc)
        as (fl & command & st2 & tr2 & tr3 & Htry & Ho & _ & _ & _ & Hi & _).
      destruct (try_block_facts cfg e st fl command st2 tr2 Htry) as [Hbrk Hf].
      destruct o.
      * destruct (stream_worker cfg st1 es) as [[st3 tr4] ex] eqn:Hw.
        injection H as -> <- ->.
        destruct Hf as (_ & _ & _ & _ & _ & _ & _ & Hinv1).
        destruct (IH st1 st' tr4 (Hi (Hinv1 Hinv)) Hw) as (H1 & H2 & tr0 & ->).
        split; [exact H1 |]. split; [exact H2 |].
        exists (tr1 ++ tr0). apply app_assoc.
      * exfalso. specialize (Hbrk (proj1 Ho eq_refl)).
        destruct (command_queue st) as [| c q] eqn:Hq; cbn in Hbrk; [discriminate |].
        injection Hbrk as ->.
        assert (Hin : In QStop (command_queue st)) by (rewrite Hq; left; reflexivity).
        rewrite (Hinv Hin) in Hs. discriminate.
Qed.

(** C8: a cycle that raises (its trace records the [except] branch) never
    ends the loop: it is followed by terminating the process launched in
    that cycle, if any, and a 10 s pause, and the loop goes on; the loop
    only exits after a stop, and then readiness is true and its last
    event sets it.  The hypothesis [stop_inv] says that a stop item is
    only ever queued after the stop flag, as [stop()] does. *)
Theorem worker_survives_errors_and_exits_on_stop :
  (forall cfg st e o st' tr,
     ffmpeg_proc st = None ->
     worker_cycle cfg st e = (o, st', tr) ->
     In EvError tr ->
     o = Continues /\ ffmpeg_proc st' = None /\
     exists tr1 tr2,
       tr = tr1 ++ EvError :: (if existsb is_launch tr1 then [EvTerminate] else [])
                ++ EvSleep 10000 :: tr2 /\ ~ In EvError tr1) /\
  (forall cfg st envs st' tr,
     stop_inv st ->
     stream_worker cfg st envs = (st', tr, true) ->
     stop_event st' = true /\ stream_ready st' = true /\ exists tr0, tr = tr0 ++ [EvReady true]).
Proof.
  split.
  - intros cfg st e o st' tr Hp Hcyc Hin.
    destruct (worker_cycle_facts cfg st e o st' tr Hcyc)
      as (fl & command & st1 & tr1 & tr2 & Htry & Ho & _ & Hp' & _ & _ & -> & _ & Hraise & Hnr).
    destruct (try_block_facts cfg e st fl command st1 tr1 Htry)
      as [_ (Hne & _ & _ & _ & Hl0 & Hl1 & _)].
    assert (Hfl : fl = FRaise).
    { destruct fl; try reflexivity;
        apply in_app_or in Hin; destruct Hin as [Hin | Hin];
        solve [contradiction | exfalso; refine (Hnr _ Hin); discriminate]. }
    destruct (Hraise Hfl) as [tr3 ->].
    split; [destruct o; [reflexivity | rewrite Hfl in Ho; discriminate (proj1 Ho eq_refl)] |].
    split; [exact Hp' |].
    exists tr1, tr3. split; [| exact Hne].
    destruct (existsb is_launch tr1) eqn:Hl.
    + destruct (ffmpeg_proc st1) eqn:E; [reflexivity | destruct (Hl1 eq_refl)]; reflexivity.
    + rewrite (Hl0 eq_refl), Hp. reflexivity.
  - intros cfg st envs st' tr. apply stream_worker_exit.
Qed.

Lemma worker_survives_errors_and_exits_on_stop_witness :
  (let '(o, st', tr) := worker_cycle cfg720 (st_abc 0 []) env_crash in
   o = Continues /\ ffmpeg_proc st' = None /\
   exists tr1 tr2,
     tr = tr1 ++ EvError :: (if existsb is_launch tr1 then [EvTerminate] else [])
              ++ EvSleep 10000 :: tr2 /\ ~ In EvError tr1) /\
  (let '(st', tr, ex) := stream_worker cfg720 (st_abc 0 []) [env_crash; env_stop_while_live; env_plays []] in
   ex = true /\ stop_event st' = true /\ stream_ready st' = true /\
   exists tr0, tr = tr0 ++ [EvReady true]).
Proof.
  split.
  - assert (Hin : In EvError (snd (worker_cycle cfg720 (st_abc 0 []) env_crash)))
      by (vm_compute; tauto).
    destruct (worker_cycle cfg720 (st_abc 0 []) env_crash) as [[o st'] tr] eqn:Hc.
    exact (proj1 worker_survives_errors_and_exits_on_stop
             cfg720 (st_abc 0 []) env_crash o st' tr eq_refl Hc Hin).
  - assert (Hex : snd (stream_worker cfg720 (st_abc 0 []) [env_crash; env_stop_while_live; env_plays []]) = true)
      by (vm_compute; reflexivity).
    destruct (stream_worker cfg720 (st_abc 0 []) [env_crash; env_stop_while_live; env_plays []])
      as [[st' tr] ex] eqn:Hw.
    cbn in Hex. subst ex. split; [reflexivity |].
    refine (proj2 worker_survives_errors_and_exits_on_stop
              cfg720 (st_abc 0 []) [env_crash; env_stop_while_live; env_plays []] st' tr _ Hw).
    intros Hin. destruct Hin.
Defined.

(** * Further properties of the code *)

(** ** Navigation *)

(** [next] and [prev] on an in-range index, followed by the boundary
    handling, move cyclically: [i + 1] and [i - 1] modulo the length. *)
Theorem next_prev_wrap (len i : Z) (Hlen : 0 < len) (Hi : 0 <= i < len) :
  normalize_index len (apply_command QNext i) = (i + 1) mod len /\
  normalize_index len (apply_command QPrev i) = (i - 1) mod len.
Proof.
  cbn [apply_command].
  destruct (normalize_index_spec len (i + 1) Hlen) as (_ & A1 & _ & A3).
  destruct (normalize_index_spec len (i - 1) Hlen) as (_ & _ & B2 & B3).
  split.
  - destruct (Z.eq_dec (i + 1) len) as [E | E].
    + rewrite A1 by lia. rewrite E, Z_mod_same_full. reflexivity.
    + rewrite A3 by lia. symmetry. apply Z.mod_small. lia.
  - destruct (Z.eq_dec i 0) as [E | E].
    + rewrite B2 by lia. subst i. apply Z.mod_unique with (q := -1); lia.
    + rewrite B3 by lia. symmetry. apply Z.mod_small. lia.
Qed.

Lemma next_prev_wrap_witness :
  normalize_index 3 (apply_command QNext 2) = (2 + 1) mod 3 /\
  normalize_index 3 (apply_command QPrev 0) = (0 - 1) mod 3.
Proof.
  split.
  - exact (proj1 (next_prev_wrap 3 2 ltac:(lia) ltac:(lia))).
  - exact (proj2 (next_prev_wrap 3 0 ltac:(lia) ltac:(lia))).
Defined.

(** ** Startup probe *)

Lemma wait_loop_iff (obs : list probe_obs) : forall m t,
  wait_loop m t obs = true <->
  exists k, (k < List.length obs)%nat /\
    (m || existsb po_m3u8 (firstn (S k) obs)) = true /\
    (t || existsb po_ts (firstn (S k) obs)) = true /\
    forallb (fun o => negb (po_exited o)) (firstn k obs) = true.
Proof.
  induction obs as [| o rest IH]; intros m t; cbn [wait_loop].
  - split; [discriminate | intros (k & Hk & _); cbn in Hk; lia].
  - assert (Em : (if negb m && po_m3u8 o then true else m) = m || po_m3u8 o)
      by (destruct m, (po_m3u8 o); reflexivity).
    assert (Et : (if negb t && po_ts o then true else t) = t || po_ts o)
      by (destruct t, (po_ts o); reflexivity).
    rewrite Em, Et.
    destruct ((m || po_m3u8 o) && (t || po_ts o)) eqn:Hb.
    + split; [intros _ | reflexivity].
      apply andb_prop in Hb. destruct Hb as [H1 H2].
      exists 0%nat. cbn. rewrite !orb_false_r.
      split; [lia |]. split; [exact H1 |]. split; [exact H2 | reflexivity].
    + assert (Hk0 : forall k, (m || existsb po_m3u8 (firstn (S k) (o :: rest))) = true ->
                              (t || existsb po_ts (firstn (S k) (o :: rest))) = true ->
                              k <> 0%nat).
      { intros k H1 H2 ->. cbn in H1, H2. rewrite orb_false_r in H1, H2.
        rewrite H1, H2 in Hb. discriminate. }
      destruct (po_exited o) eqn:Hx.
      * split; [discriminate |]. intros (k & Hk & H1 & H2 & H3).
        destruct k as [| k]; [exact (False_ind _ (Hk0 0%nat H1 H2 eq_refl)) |].
        cbn in H3. rewrite Hx in H3. discriminate.
      * rewrite IH. split.
        -- intros (k & Hk & H1 & H2 & H3). exists (S k).
           cbn [firstn existsb forallb List.length]. rewrite Hx.
           rewrite !orb_assoc. cbn [negb andb].
           split; [lia |]. split; [exact H1 |]. split; [exact H2 | exact H3].
        -- intros (k & Hk & H1 & H2 & H3).
           destruct k as [| k]; [exact (False_ind _ (Hk0 0%nat H1 H2 eq_refl)) |].
           exists k. cbn [firstn existsb forallb List.length] in Hk, H1, H2, H3.
           rewrite Hx in H3. rewrite !orb_assoc in H1, H2. cbn [negb andb] in H3.
           split; [lia |]. split; [exact H1 |]. split; [exact H2 | exact H3].
Qed.

(** The startup probe succeeds exactly when, at some in-time iteration
    [k], the manifest and the first chunk have both been seen (at that or
    earlier iterations, not necessarily the same one) and the process was
    not seen exited at any iteration before [k]. *)
Theorem wait_for_stream_iff (obs : list probe_obs) :
  wait_for_stream obs = true <->
  exists k, (k < List.length obs)%nat /\
    existsb po_m3u8 (firstn (S k) obs) = true /\
    existsb po_ts (firstn (S k) obs) = true /\
    forallb (fun o => negb (po_exited o)) (firstn k obs) = true.
Proof. exact (wait_loop_iff obs false false). Qed.

(** ** Directory cleaning *)

(** Cleaning never removes a file not ending in .m3u8 or .ts and never
    adds one; when the listing and every removal succeed it removes all
    .m3u8 and .ts files, among them the two the startup probe waits for. *)
Theorem clean_hls_directory_spec (listdir_ok : bool) (remove_fails : string -> bool)
    (dir : list string) :
  (forall f, In f (clean_hls_directory listdir_ok remove_fails dir) -> In f dir) /\
  (forall f, In f dir -> hls_file f = false ->
     In f (clean_hls_directory listdir_ok remove_fails dir)) /\
  (listdir_ok = true ->
   (forall f, In f dir -> hls_file f = true -> remove_fails f = false) ->
   clean_hls_directory listdir_ok remove_fails dir = filter (fun f => negb (hls_file f)) dir /\
   ~ In "stream.m3u8" (clean_hls_directory listdir_ok remove_fails dir) /\
   ~ In "stream000.ts" (clean_hls_directory listdir_ok remove_fails dir)).
Proof.
  assert (Loop : forall fs,
    (forall f, In f (clean_loop remove_fails fs) -> In f fs) /\
    (forall f, In f fs -> hls_file f = false -> In f (clean_loop remove_fails fs)) /\
    ((forall f, In f fs -> hls_file f = true -> remove_fails f = false) ->
     clean_loop remove_fails fs = filter (fun f => negb (hls_file f)) fs)).
  { induction fs as [| f fs (I1 & I2 & I3)]; cbn.
    - split; [auto | split; [auto | reflexivity]].
    - destruct (hls_file f) eqn:Hh; [destruct (remove_fails f) eqn:Hr |]; cbn.
      + split; [auto | split; [auto |]].
        intros Hok. rewrite (Hok f (or_introl eq_refl) Hh) in Hr. discriminate.
      + split; [intros g Hg; right; apply I1, Hg |].
        split; [intros g [<- | Hg] Hg'; [congruence | apply I2; assumption] |].
        intros Hok. apply I3. intros g Hg. apply Hok. right. exact Hg.
      + split; [intros g [<- | Hg]; [left; reflexivity | right; apply I1, Hg] |].
        split; [intros g [<- | Hg] Hg'; [left; reflexivity | right; apply I2; assumption] |].
        intros Hok. f_equal. apply I3. intros g Hg. apply Hok. right. exact Hg. }
  unfold clean_hls_directory.
  destruct listdir_ok.
  - destruct (Loop dir) as (L1 & L2 & L3).
    split; [exact L1 |]. split; [exact L2 |].
    intros _ Hok. rewrite (L3 Hok).
    split; [reflexivity |].
    split; intros Hin; apply filter_In in Hin; destruct Hin as [_ Hn];
      vm_compute in Hn; discriminate Hn.
  - split; [auto |]. split; [auto |]. discriminate.
Qed.

Lemma clean_hls_directory_spec_witness :
  clean_hls_directory true (fun _ => false)
    ["stream.m3u8"; "stream000.ts"; "stream001.ts"; "notes.txt"] = ["notes.txt"].
Proof.
  refine (proj1 (proj2 (proj2 (clean_hls_directory_spec true (fun _ => false)
            ["stream.m3u8"; "stream000.ts"; "stream001.ts"; "notes.txt"])) eq_refl _)).
  intros f _ _. reflexivity.
Defined.

(** ** Output paths of the transcoder *)

Lemma str_app_assoc (a b c : string) : ((a ++ b) ++ c)%string = (a ++ b ++ c)%string.
Proof. induction a as [| x a IH]; cbn; [reflexivity | rewrite IH; reflexivity]. Qed.

Lemma str_length_app (a b : string) :
  String.length (a ++ b) = (String.length a + String.length b)%nat.
Proof. induction a as [| x a IH]; cbn; [reflexivity | rewrite IH; reflexivity]. Qed.

Lemma substring_app (a b : string) (m k : nat) :
  substring (String.length a + m) k (a ++ b) = substring m k b.
Proof. induction a as [| x a IH]; cbn; [reflexivity | exact IH]. Qed.

Lemma HLS_DIR_shape (cwd : string) : exists y, HLS_DIR cwd = (y ++ "hls")%string.
Proof.
  unfold HLS_DIR, path_join. cbn [String.prefix].
  destruct (String.eqb cwd "" || ends_with "/" cwd).
  - exists cwd. reflexivity.
  - exists (cwd ++ "/")%string. rewrite str_app_assoc. reflexivity.
Qed.

Lemma path_join_hls (y x : string) :
  String.prefix "/" x = false ->
  path_join (y ++ "hls") x = (y ++ "hls" ++ "/" ++ x)%string.
Proof.
  intros Hx. unfold path_join. rewrite Hx.
  assert (Hne : String.eqb (y ++ "hls") "" = false).
  { destruct y; reflexivity. }
  assert (Hend : ends_with "/" (y ++ "hls") = false).
  { unfold ends_with. rewrite str_length_app. cbn [String.length].
    replace (String.length y + 3 - 1)%nat with (String.length y + 2)%nat by lia.
    rewrite substring_app. rewrite andb_false_r. reflexivity. }
  rewrite Hne, Hend. cbn [orb]. rewrite str_app_assoc. reflexivity.
Qed.

(** The transcoder writes its manifest to [self.m3u8_file], the path the
    probe polls, and its chunks to a pattern whose [%03d] field, set to
    [000], gives the chunk path the probe polls. *)
Theorem stream_video_outputs_match_probe (cwd video_url audio_url resolution bitrate : string) :
  let cmd := stream_video_cmd (HLS_DIR cwd) video_url audio_url resolution bitrate in
  exists seg_pre seg_suf,
    skipn (List.length cmd - 3) cmd =
      ["-hls_segment_filename"; (seg_pre ++ "%03d" ++ seg_suf)%string; m3u8_file cwd] /\
    ts_path cwd = (seg_pre ++ "000" ++ seg_suf)%string.
Proof.
  intros cmd. subst cmd.
  destruct (HLS_DIR_shape cwd) as [y Hy].
  exists (HLS_DIR cwd ++ "/stream")%string, ".ts".
  unfold m3u8_file, ts_path. rewrite Hy.
  rewrite !path_join_hls by reflexivity. rewrite !str_app_assoc.
  split; [| reflexivity].
  unfold stream_video_cmd.
  destruct (String.eqb video_url audio_url); cbn [app List.length]; cbn -[append];
    rewrite !str_app_assoc; reflexivity.
Qed.

(** ** Media locator *)

(** [_get_media_url] returns both URLs or neither; two different URLs
    only come from the first two requested formats. *)
Theorem get_media_url_pair (info : option media_info) :
  get_media_url info = (None, None) \/
  exists v a, get_media_url info = (Some v, Some a) /\
    (v = a \/ exists i rest, info = Some i /\
                             mi_requested_formats i = Some (Some v :: Some a :: rest)).
Proof.
  destruct info as [i |]; [| left; reflexivity].
  unfold get_media_url.
  destruct i as [u fs]; cbn [mi_url mi_requested_formats].
  destruct u as [u |], fs as [fs |]; cbn;
    try destruct fs as [| [v |] [| [a |] rest]]; cbn;
    first [ left; reflexivity
          | right; do 2 eexists; split; [reflexivity |];
            first [left; reflexivity | right; do 2 eexists; split; reflexivity]].
Qed.

(** ** Playlist resolver *)

Lemma collect_urls_spec (es : list py_entry) :
  (Exists (fun e => entry_truthy e = true /\ entry_url e = None) es ->
   collect_urls es = None) /\
  (Forall (fun e => entry_truthy e = true -> entry_url e <> None) es ->
   exists us, collect_urls es = Some us /\
              map Some us = map entry_url (filter entry_truthy es)).
Proof.
  induction es as [| e es (I1 & I2)]; cbn.
  - split; [intros H; inversion H | exists []; split; reflexivity].
  - split.
    + intros H. inversion H as [? ? [Ht Hu] | ? ? Hx]; subst.
      * rewrite Ht. destruct e as [d |]; [| discriminate].
        cbn in Hu. rewrite Hu. reflexivity.
      * rewrite (I1 Hx). destruct (entry_truthy e); [| reflexivity].
        destruct e as [d |]; [| reflexivity].
        destruct (dict_get "url" d); reflexivity.
    + intros H. inversion H as [| ? ? He Hf]; subst.
      destruct (I2 Hf) as (us & Hc & Hm).
      destruct (entry_truthy e) eqn:Ht.
      * destruct e as [d |]; [| discriminate].
        specialize (He eq_refl). cbn in He.
        destruct (dict_get "url" d) as [u |] eqn:Hu; [| contradiction].
        rewrite Hc. exists (u :: us). split; [reflexivity |].
        cbn. rewrite Hu, Hm. reflexivity.
      * exists us. split; [exact Hc | exact Hm].
Qed.

(** A non-playlist result gives the page URL alone; for a playlist one
    truthy entry without a URL empties the whole result, and otherwise the
    result is the URLs of the truthy entries, in order. *)
Theorem get_playlist_videos_spec (url : string) (i : playlist_info) :
  (pi_type i <> Some "playlist" -> get_playlist_videos url (Some i) = [url]) /\
  (forall es, pi_type i = Some "playlist" -> pi_entries i = Some es ->
     (Exists (fun e => entry_truthy e = true /\ entry_url e = None) es ->
      get_playlist_videos url (Some i) = []) /\
     (Forall (fun e => entry_truthy e = true -> entry_url e <> None) es ->
      map Some (get_playlist_videos url (Some i)) = map entry_url (filter entry_truthy es))).
Proof.
  unfold get_playlist_videos. split.
  - intros Hn. destruct (pi_type i) as [t |]; [| reflexivity].
    destruct (String.eqb_spec t "playlist"); [subst; contradiction | reflexivity].
  - intros es Ht He. rewrite Ht, He. cbn.
    destruct (collect_urls_spec es) as [C1 C2]. split.
    + intros Hx. rewrite (C1 Hx). reflexivity.
    + intros Hf. destruct (C2 Hf) as (us & Hc & Hm). rewrite Hc. exact Hm.
Qed.

Lemma get_playlist_videos_spec_witness :
  get_playlist_videos "u" (Some (mk_playlist_info (Some "video") None)) = ["u"] /\
  get_playlist_videos "u"
    (Some (mk_playlist_info (Some "playlist")
             (Some [Some [("url", "a")]; Some [("id", "b")]; None]))) = [] /\
  map Some (get_playlist_videos "u"
    (Some (mk_playlist_info (Some "playlist")
             (Some [Some [("url", "a")]; None; Some []; Some [("url", "c")]])))) =
  map entry_url (filter entry_truthy [Some [("url", "a")]; None; Some []; Some [("url", "c")]]).
Proof.
  split; [| split].
  - apply (proj1 (get_playlist_videos_spec "u" (mk_playlist_info (Some "video") None))).
    discriminate.
  - apply (proj2 (get_playlist_videos_spec "u"
             (mk_playlist_info (Some "playlist")
                (Some [Some [("url", "a")]; Some [("id", "b")]; None])))
             _ eq_refl eq_refl).
    apply Exists_cons_tl. apply Exists_cons_hd. split; reflexivity.
  - apply (proj2 (get_playlist_videos_spec "u"
             (mk_playlist_info (Some "playlist")
                (Some [Some [("url", "a")]; None; Some []; Some [("url", "c")]])))
             _ eq_refl eq_refl).
    repeat constructor; cbn; discriminate.
Defined.

(** ** HTTP routes *)

(** HTTP requests only append [next], [prev] or [skip(n)] with [n >= 1]
    to the queue: they never set the stop flag and never touch the
    playlist, the index, the readiness signal or the process. *)
Theorem handle_requests_only_queue (rs : list request) : forall st,
  let '(st', _) := handle_requests st rs in
  stop_event st' = stop_event st /\ playlist st' = playlist st /\
  current_index st' = current_index st /\ stream_ready st' = stream_ready st /\
  ffmpeg_proc st' = ffmpeg_proc st /\
  exists added, command_queue st' = command_queue st ++ added /\
    Forall (fun q => q = QNext \/ q = QPrev \/ exists n, q = QSkip n /\ 1 <= n) added.
Proof.
  induction rs as [| r rs IH]; intros st; cbn.
  - repeat split; auto. exists []. rewrite app_nil_r. split; auto.
  - assert (Step : let '(st1, _) := handle_request st r in
              stop_event st1 = stop_event st /\ playlist st1 = playlist st /\
              current_index st1 = current_index st /\ stream_ready st1 = stream_ready st /\
              ffmpeg_proc st1 = ffmpeg_proc st /\
              exists added, command_queue st1 = command_queue st ++ added /\
                Forall (fun q => q = QNext \/ q = QPrev \/ exists n, q = QSkip n /\ 1 <= n) added).
    { destruct r as [c | n |]; cbn.
      - destruct (String.eqb c "next"); [| destruct (String.eqb c "prev")]; cbn;
          (split; [reflexivity |]); (split; [reflexivity |]); (split; [reflexivity |]);
          (split; [reflexivity |]); (split; [reflexivity |]).
        + exists [QNext]. split; [reflexivity |].
          apply Forall_cons; [left; reflexivity | apply Forall_nil].
        + exists [QPrev]. split; [reflexivity |].
          apply Forall_cons; [right; left; reflexivity | apply Forall_nil].
        + exists []. rewrite app_nil_r. split; [reflexivity | apply Forall_nil].
      - destruct (n <? 1) eqn:Hn; cbn; repeat split; auto.
        + exists []; rewrite app_nil_r; split; auto.
        + exists [QSkip n]; split; [reflexivity |]. apply Z.ltb_ge in Hn.
          apply Forall_cons; [right; right; exists n; split; [reflexivity | lia] | apply Forall_nil].
      - repeat split; auto. exists []; rewrite app_nil_r; split; auto. }
    destruct (handle_request st r) as [st1 resp].
    specialize (IH st1). destruct (handle_requests st1 rs) as [st2 resps].
    destruct Step as (S1 & S2 & S3 & S4 & S5 & a1 & S6 & S7).
    destruct IH as (I1 & I2 & I3 & I4 & I5 & a2 & I6 & I7).
    repeat split; try congruence.
    exists (a1 ++ a2). split.
    + rewrite I6, S6, app_assoc. reflexivity.
    + apply Forall_app. split; assumption.
Qed.

(** ** The playlist and the index across cycles *)

Lemma py_index_in_range {A} (l : list A) (i : Z) :
  0 <= i < Z.of_nat (List.length l) -> py_index l i <> None.
Proof.
  unfold py_index. intros Hi.
  replace ((0 <=? i) && (i <? Z.of_nat (List.length l))) with true
    by (symmetry; apply andb_true_iff; split; [apply Z.leb_le | apply Z.ltb_lt]; lia).
  apply nth_error_Some. lia.
Qed.

Ltac fetch_in_trace H :=
  repeat rewrite in_app_iff in H; cbn [In] in H;
  repeat match type of H with _ \/ _ => destruct H as [H | H] end;
  first [ assumption | discriminate H | contradiction H
        | match goal with M : forall ev, In ev ?t -> _ |- _ =>
            destruct (M _ H); discriminate end ].

Lemma play_keeps_index (cfg : config) (e : env) (command : option string)
    (st : state) (tr0 : list event) fl command' st1 tr :
  play cfg e command st tr0 = (fl, command', st1, tr) ->
  playlist st1 = playlist st /\ current_index st1 = current_index st /\
  (In EvFetchPlaylist tr -> In EvFetchPlaylist tr0) /\
  (fl = FRaise -> env_raise e <> None \/ py_index (playlist st) (current_index st) = None).
Proof.
  unfold play. intros H.
  repeat (destr_in H; cbv beta iota zeta in H).
  all: injection H as <- <- <- <-.
  all: try match goal with
       | Hm : monitor _ _ = (_, _) |- _ =>
           destruct (monitor_keeps _ _ _ _ Hm) as (M1 & M2 & _ & _ & _ & _ & M7);
           cbn in M1, M2
       end.
  all: cbn [playlist current_index set_ready set_proc].
  all: split; [congruence |]; split; [congruence |].
  all: split; [intros Hin; fetch_in_trace Hin |].
  all: intros Hfl; try discriminate Hfl.
  all: first [ right; reflexivity
             | left; intros Hn; unfold raises in *; rewrite Hn in *; discriminate ].
Qed.

Lemma ensure_index (cfg : config) (e : env) (command : option string) (st : state)
    fl command' st1 tr :
  ensure_playlist_and_play cfg e command st = (fl, command', st1, tr) ->
  (playlist st <> [] -> playlist st1 = playlist st /\ ~ In EvFetchPlaylist tr) /\
  (playlist st1 <> [] -> 0 <= current_index st1 < Z.of_nat (List.length (playlist st1))) /\
  (fl = FRaise -> env_raise e <> None).
Proof.
  unfold ensure_playlist_and_play. intros H.
  destruct (is_nil (playlist st)) eqn:Hnil.
  - assert (Hp : playlist st = []) by (destruct (playlist st); [reflexivity | discriminate]).
    destruct (raises e RaiseResolve) eqn:Hr.
    + injection H as <- <- <- <-.
      split; [intros Hn; contradiction |]. split; [intros Hn; contradiction |].
      intros _ Hn. unfold raises in Hr. rewrite Hn in Hr. discriminate.
    + cbn [playlist set_playlist] in H.
      destruct (is_nil (env_resolver e)) eqn:Hr2.
      * injection H as <- <- <- <-. cbn [playlist set_playlist].
        split; [intros Hn; contradiction |].
        split; [intros Hn; destruct (env_resolver e); [contradiction | discriminate] |].
        discriminate.
      * assert (Hlen : 0 < Z.of_nat (List.length (env_resolver e)))
          by (destruct (env_resolver e); [discriminate | cbn; lia]).
        destruct (current_index (set_playlist st (env_resolver e)) =? -1);
          apply play_keeps_index in H; destruct H as (P1 & P2 & _ & P4);
          cbn [playlist current_index set_index set_playlist] in P1, P2, P4 |- *.
        all: split; [intros Hn; contradiction |].
        all: split; [intros _; rewrite P1, P2; exact (proj1 (normalize_index_spec _ _ Hlen)) |].
        all: intros Hfl; destruct (P4 Hfl) as [Hn | Hn]; [exact Hn |].
        all: exfalso; refine (py_index_in_range _ _ _ Hn).
        all: exact (proj1 (normalize_index_spec _ _ Hlen)).
  - assert (Hlen : 0 < Z.of_nat (List.length (playlist st)))
      by (destruct (playlist st); [discriminate | cbn; lia]).
    apply play_keeps_index in H. destruct H as (P1 & P2 & P3 & P4).
    cbn [playlist current_index set_index] in P1, P2, P4 |- *.
    split; [intros _; split; [exact P1 | intros Hin; exact (P3 Hin)] |].
    split; [intros _; rewrite P1, P2; exact (proj1 (normalize_index_spec _ _ Hlen)) |].
    intros Hfl; destruct (P4 Hfl) as [Hn | Hn]; [exact Hn |].
    exfalso; refine (py_index_in_range _ _ _ Hn).
    exact (proj1 (normalize_index_spec _ _ Hlen)).
Qed.

Lemma try_block_index (cfg : config) (e : env) (st : state) fl command st1 tr :
  try_block cfg e st = (fl, command, st1, tr) ->
  (playlist st <> [] -> playlist st1 = playlist st /\ ~ In EvFetchPlaylist tr) /\
  (fl = FBreak -> playlist st1 = playlist st /\ current_index st1 = current_index st /\
                  hd_error (command_queue st) = Some QStop) /\
  (fl <> FBreak -> playlist st1 <> [] ->
     0 <= current_index st1 < Z.of_nat (List.length (playlist st1))) /\
  (fl = FRaise -> env_raise e <> None).
Proof.
  unfold try_block. intros H.
  destruct (command_queue st) as [| c q] eqn:Hq.
  - destruct (ensure_index _ _ _ _ _ _ _ _ H) as (E1 & E2 & E3).
    destruct (ensure_facts _ _ _ _ _ _ _ _ H) as [Hnb _].
    split; [exact E1 |]. split; [intros; contradiction |].
    split; [intros _; exact E2 | exact E3].
  - destruct c.
    + injection H as <- <- <- <-. cbn.
      split; [intros _; split; [reflexivity | intros []] |].
      split; [intros _; split; [reflexivity | split; reflexivity] |].
      split; [intros Hn; contradiction Hn; reflexivity | discriminate].
    + all: destruct (ensure_index _ _ _ _ _ _ _ _ H) as (E1 & E2 & E3);
           destruct (ensure_facts _ _ _ _ _ _ _ _ H) as [Hnb _];
           cbn [playlist set_index set_queue] in E1;
           (split; [exact E1 |]); (split; [intros; contradiction |]);
           (split; [intros _; exact E2 | exact E3]).
    + all: destruct (ensure_index _ _ _ _ _ _ _ _ H) as (E1 & E2 & E3);
           destruct (ensure_facts _ _ _ _ _ _ _ _ H) as [Hnb _];
           cbn [playlist set_index set_queue] in E1;
           (split; [exact E1 |]); (split; [intros; contradiction |]);
           (split; [intros _; exact E2 | exact E3]).
    + all: destruct (ensure_index _ _ _ _ _ _ _ _ H) as (E1 & E2 & E3);
           destruct (ensure_facts _ _ _ _ _ _ _ _ H) as [Hnb _];
           cbn [playlist set_index set_queue] in E1;
           (split; [exact E1 |]); (split; [intros; contradiction |]);
           (split; [intros _; exact E2 | exact E3]).
Qed.

Lemma finally_index (e : env) (command : option string) (st : state) :
  let stf := apply_apis (set_proc st None) (env_final e) in
  let st' := if negb (py_truthy command) && is_nil (command_queue stf)
                && negb (stop_event stf)
             then set_index stf (current_index stf + 1) else stf in
  playlist st' = playlist st /\
  (current_index st' = current_index st \/
   (current_index st' = current_index st + 1 /\ stop_event st = false)).
Proof.
  cbv zeta.
  destruct (apply_apis_keeps (env_final e) (set_proc st None))
    as (A1 & A2 & _ & _ & _ & A6 & _).
  cbn [playlist current_index stop_event set_proc] in A1, A2, A6.
  destruct (negb (py_truthy command) && is_nil _ && negb _) eqn:Hb;
    cbn [playlist current_index set_index]; rewrite ?A1, ?A2.
  - split; [reflexivity |]. right. split; [reflexivity |].
    destruct (stop_event st) eqn:Hs; [| reflexivity].
    rewrite (A6 eq_refl) in Hb. rewrite !andb_false_r in Hb. discriminate.
  - split; [reflexivity | left; reflexivity].
Qed.

Lemma worker_cycle_shape (cfg : config) (st : state) (e : env) o st' tr :
  worker_cycle cfg st e = (o, st', tr) ->
  exists fl command st1 tr1 tr2,
    try_block cfg e st = (fl, command, st1, tr1) /\ tr = tr1 ++ tr2 /\
    (forall ev, In ev tr2 -> ev = EvError \/ ev = EvTerminate \/ exists ms, ev = EvSleep ms) /\
    playlist st' = playlist st1 /\
    (current_index st' = current_index st1 \/
     (current_index st' = current_index st1 + 1 /\ stop_event st1 = false)).
Proof.
  intros H.
  destruct (worker_cycle_facts cfg st e o st' tr H)
    as (fl & command & st1 & tr1 & tr2 & Htry & _ & _ & _ & _ & _ & Htr & Hq & _ & _).
  exists fl, command, st1, tr1, tr2.
  split; [exact Htry |]. split; [exact Htr |]. split; [exact Hq |].
  unfold worker_cycle in H. rewrite Htry in H. cbv beta iota zeta in H.
  destruct (finally_index e command st1) as (F1 & F2). cbv zeta in F1, F2.
  set (stf := apply_apis (set_proc st1 None) (env_final e)) in *.
  set (st'' := if negb (py_truthy command) && is_nil (command_queue stf) && negb (stop_event stf)
               then set_index stf (current_index stf + 1) else stf) in *.
  assert (Hst : st' = st'') by (destruct fl, (is_nil (command_queue st'')); congruence).
  subst st'. split; [exact F1 | exact F2].
Qed.

(** Once a playlist is loaded, a cycle neither fetches it again nor
    changes it. *)
Theorem loaded_playlist_never_refetched (cfg : config) (st : state) (e : env)
    (o : outcome) (st' : state) (tr : list event)
    (Hpl : playlist st <> [])
    (Hcyc : worker_cycle cfg st e = (o, st', tr)) :
  playlist st' = playlist st /\ ~ In EvFetchPlaylist tr.
Proof.
  destruct (worker_cycle_shape cfg st e o st' tr Hcyc)
    as (fl & command & st1 & tr1 & tr2 & Htry & -> & Hq & P & _).
  destruct (try_block_index cfg e st fl command st1 tr1 Htry) as (T1 & _).
  destruct (T1 Hpl) as [T1a T1b].
  split; [congruence |].
  intros Hin. apply in_app_or in Hin. destruct Hin as [Hin | Hin]; [exact (T1b Hin) |].
  destruct (Hq _ Hin) as [E | [E | [ms E]]]; discriminate E.
Qed.

Lemma loaded_playlist_never_refetched_witness :
  let '(o, st', tr) := worker_cycle cfg720 (st_abc 2 []) (env_plays ["X"]) in
  playlist st' = playlist (st_abc 2 []) /\ ~ In EvFetchPlaylist tr.
Proof.
  destruct (worker_cycle cfg720 (st_abc 2 []) (env_plays ["X"])) as [[o st'] tr] eqn:Hc.
  exact (loaded_playlist_never_refetched cfg720 (st_abc 2 []) (env_plays ["X"]) o st' tr
           ltac:(discriminate) Hc).
Defined.





(** When no outside call raises, a cycle never takes the [except]
    branch: in particular [self.playlist[self.current_index]] never raises. *)
Theorem no_error_without_raise (cfg : config) (st : state) (e : env)
    (o : outcome) (st' : state) (tr : list event)
    (Hraise : env_raise e = None)
    (Hcyc : worker_cycle cfg st e = (o, st', tr)) :
  ~ In EvError tr.
Proof.
  destruct (worker_cycle_facts cfg st e o st' tr Hcyc)
    as (fl & command & st1 & tr1 & tr2 & Htry & _ & _ & _ & _ & _ & -> & _ & _ & Hnr).
  destruct (try_block_facts cfg e st fl command st1 tr1 Htry) as [_ (Hne & _)].
  destruct (try_block_index cfg e st fl command st1 tr1 Htry) as (_ & _ & _ & T4).
  assert (Hfl : fl <> FRaise) by (intros Hf; exact (T4 Hf Hraise)).
  intros Hin. apply in_app_or in Hin. destruct Hin as [Hin | Hin];
    [exact (Hne Hin) | exact (Hnr Hfl Hin)].
Qed.

Lemma no_error_without_raise_witness :
  let '(o, st', tr) := worker_cycle cfg720 (st_abc 7 [QSkip 9]) (env_plays []) in
  ~ In EvError tr.
Proof.
  destruct (worker_cycle cfg720 (st_abc 7 [QSkip 9]) (env_plays [])) as [[o st'] tr] eqn:Hc.
  exact (no_error_without_raise cfg720 (st_abc 7 [QSkip 9]) (env_plays []) o st' tr
           eq_refl Hc).
Defined.

(** ** Stopping during playback *)



(** ** A failed startup probe *)

(** When the startup probe of a launched process fails, the cycle
    terminates the process, leaves readiness clear and does not advance
    the index: the next cycle starts the same video again. *)
Theorem probe_failure_retries_same_video (cfg : config) (st : state) (e : env)
    (o : outcome) (st' : state) (tr : list event)
    (Hstop : stop_event st = false)
    (Hq : (List.length (command_queue st) <= 1)%nat)
    (Hraise : env_raise e = None)
    (Hprobe : wait_for_stream (env_probe e) = false)
    (Hfin : env_final e = [])
    (Hcyc : worker_cycle cfg st e = (o, st', tr))
    (Hlaunch : existsb is_launch tr = true) :
  o = Continues /\ stream_ready st' = false /\ ffmpeg_proc st' = None /\
  In EvTerminate tr /\ started_videos tr = [current_index st'].
Proof.
  destruct st as [pl ci rd pr q se]; cbn in Hstop, Hq; subst se.
  unfold worker_cycle in Hcyc.
  destruct (try_block cfg e _) as [[[fl cmd] st2] tr2] eqn:Htry.
  unfold try_block, ensure_playlist_and_play, play, raises in Htry.
  rewrite Hraise, Hprobe in Htry. cbn in Htry. rewrite Hfin in Hcyc.
  destruct q as [| c [| c' q]]; [| | cbn in Hq; lia].
  all: repeat (destr_in Htry; cbn in Htry).
  all: injection Htry as <- <- <- <-.
  all: cbn in Hcyc.
  all: repeat (destr_in Hcyc; cbn in Hcyc).
  all: injection Hcyc as <- <- <-.
  all: cbn in Hlaunch; rewrite ?existsb_app in Hlaunch; cbn in Hlaunch;
       try discriminate Hlaunch.
  all: cbn.
  all: split; [reflexivity |]; split; [reflexivity |]; split; [reflexivity |].
  all: split; [repeat (try (left; reflexivity); right) |].
  all: reflexivity.
Qed.

Lemma probe_failure_retries_same_video_witness :
  let '(o, st', tr) :=
    worker_cycle cfg720 (st_abc 1 [])
      (mk_env [] locator_ok [mk_probe_obs true false true] [] [] None) in
  o = Continues /\ stream_ready st' = false /\ ffmpeg_proc st' = None /\
  In EvTerminate tr /\ started_videos tr = [current_index st'].
Proof.
  assert (Hl : existsb is_launch
                 (snd (worker_cycle cfg720 (st_abc 1 [])
                         (mk_env [] locator_ok [mk_probe_obs true false true] [] [] None)))
               = true)
    by (vm_compute; reflexivity).
  destruct (worker_cycle cfg720 (st_abc 1 [])
              (mk_env [] locator_ok [mk_probe_obs true false true] [] [] None))
    as [[o st'] tr] eqn:Hc.
  exact (probe_failure_retries_same_video cfg720 (st_abc 1 [])
           (mk_env [] locator_ok [mk_probe_obs true false true] [] [] None) o st' tr
           eq_refl (le_0_n 1) eq_refl eq_refl eq_refl Hc Hl).
Defined.
